(** * Jzon: document model, escaping, writer and parser

    A shallow embedding of [samples/Jzon.h] and [samples/Jzon.cpp]
    (namespace [Jzon]) and the properties of its document model, of its
    string escaping, of [Writer] and of [Parser].

    Conventions of the embedding.
    - [std::string] is [string]; a [char] is an [ascii].
    - A thrown C++ exception is a value of [Thrown]: [Returns a] or
      [Throws e].
    - Nodes are values.  A container owns its children and every [Add]
      stores a deep copy ([GetCopy]), so a child is a sub-term.  The one
      place where a node is reached through a pointer that aliases the
      caller's node, the frame stack of [Parser::assemble], is modelled
      with an explicit pointer type ([Parser.NodePtr]).
    - [size_t] and [unsigned int] are [N] with the wrap-around written out
      where the code computes with them; an index that is only compared
      is a [nat]. *)

From Stdlib Require Import String Ascii List ZArith NArith Bool Lia.
Import ListNotations.

Open Scope string_scope.

(** ** Characters *)

Definition NUL : ascii := "000"%char.
Definition BACKSPACE : ascii := "008"%char.
Definition TAB : ascii := "009"%char.
Definition LF : ascii := "010"%char.
Definition VT : ascii := "011"%char.
Definition FF : ascii := "012"%char.
Definition CR : ascii := "013"%char.
Definition SPACE : ascii := "032"%char.
Definition DQUOTE : ascii := "034"%char.
Definition BACKSLASH : ascii := "092"%char.

(** A one-character string, and the string of [n] copies of [c]
    ([std::string(n, c)]). *)
Definition str1 (c : ascii) : string := String c EmptyString.

Fixpoint fill (n : nat) (c : ascii) : string :=
  match n with
  | O => EmptyString
  | S n' => String c (fill n' c)
  end.

Definition isEmpty (s : string) : bool :=
  match s with
  | EmptyString => true
  | String _ _ => false
  end.

(** [s[i]] for an index inside the buffer of a C string literal. *)
Definition at_ (s : string) (i : nat) : ascii :=
  match String.get i s with
  | Some c => c
  | None => NUL
  end.

(** ** Exceptions *)

Inductive Exception : Type :=
| TypeException
| NotFoundException.

Inductive Thrown (A : Type) : Type :=
| Returns (a : A)
| Throws (e : Exception).

Arguments Returns {A} a.
Arguments Throws {A} e.

(** ** The document model *)

(** [Node::Type]. *)
Inductive Type_ : Type :=
| T_OBJECT
| T_ARRAY
| T_VALUE.

(** [Value::ValueType]. *)
Inductive ValueType : Type :=
| VT_NULL
| VT_STRING
| VT_NUMBER
| VT_BOOL.

Definition ValueType_eqb (a b : ValueType) : bool :=
  match a, b with
  | VT_NULL, VT_NULL => true
  | VT_STRING, VT_STRING => true
  | VT_NUMBER, VT_NUMBER => true
  | VT_BOOL, VT_BOOL => true
  | _, _ => false
  end.

(** The three classes derived from [Node].  [Value] holds [type] and
    [valueStr]; [Object] holds [children], a vector of
    [NamedNodePtr = pair<string, pointer to Node>]; [Array] holds a vector of
    pointers to [Node]. *)
#[local] Unset Elimination Schemes.
Inductive Node : Type :=
| Value (type : ValueType) (valueStr : string)
| Object (children : list (string * Node))
| Array (children : list Node).
#[local] Set Elimination Schemes.

Definition GetType (n : Node) : Type_ :=
  match n with
  | Value _ _ => T_VALUE
  | Object _ => T_OBJECT
  | Array _ => T_ARRAY
  end.

Definition IsObject (n : Node) : bool :=
  match GetType n with T_OBJECT => true | _ => false end.
Definition IsArray (n : Node) : bool :=
  match GetType n with T_ARRAY => true | _ => false end.
Definition IsValue (n : Node) : bool :=
  match GetType n with T_VALUE => true | _ => false end.

(** [Node::IsNull] etc. return [false]; [Value] overrides them. *)
Definition IsNull (n : Node) : bool :=
  match n with Value t _ => ValueType_eqb t VT_NULL | _ => false end.
Definition IsString (n : Node) : bool :=
  match n with Value t _ => ValueType_eqb t VT_STRING | _ => false end.
Definition IsNumber (n : Node) : bool :=
  match n with Value t _ => ValueType_eqb t VT_NUMBER | _ => false end.
Definition IsBool (n : Node) : bool :=
  match n with Value t _ => ValueType_eqb t VT_BOOL | _ => false end.

(** [GetCopy] allocates a copy of the node through the copy constructor
    of its class, which clones every child: on values, the node itself. *)
Definition GetCopy (n : Node) : Node := n.

(** *** Formatted extraction of the standard library

    [std::stringstream sstr(valueStr); int val = 0; sstr >> val;] is code
    of the C++ standard library, not of this repository.  For [int] it is
    modelled in the classic locale: leading white space is skipped, an
    optional sign and the longest run of decimal digits are read, no digit
    gives [0], and a value out of the range of [int] gives the nearest
    bound. *)

Definition isspace (c : ascii) : bool :=
  (c =? SPACE)%char || (c =? TAB)%char || (c =? LF)%char
  || (c =? VT)%char || (c =? FF)%char || (c =? CR)%char.

Definition isdigit (c : ascii) : bool :=
  (48 <=? nat_of_ascii c)%nat && (nat_of_ascii c <=? 57)%nat.

Fixpoint skipws (s : string) : string :=
  match s with
  | String c r => if isspace c then skipws r else s
  | EmptyString => EmptyString
  end.

(** The digits read so far are [Some acc]; [None] while no digit was read. *)
Fixpoint digits (s : string) (acc : option Z) : option Z :=
  match s with
  | String c r =>
      if isdigit c
      then digits r (Some (10 * match acc with Some a => a | None => 0 end
                           + (Z.of_nat (nat_of_ascii c) - 48))%Z)
      else acc
  | EmptyString => acc
  end.

Definition INT_MAX : Z := 2147483647.
Definition INT_MIN : Z := -2147483648.

Definition clamp_int (z : Z) : Z :=
  if (z <? INT_MIN)%Z then INT_MIN
  else if (INT_MAX <? z)%Z then INT_MAX
  else z.

Definition extract_int (s : string) : Z :=
  let s1 := skipws s in
  let '(neg, s2) :=
    match s1 with
    | String "-"%char r => (true, r)
    | String "+"%char r => (false, r)
    | _ => (false, s1)
    end in
  match digits s2 None with
  | None => 0%Z
  | Some v => clamp_int (if neg then - v else v)%Z
  end.

(** *** Value accessors

    The base class [Node] throws [TypeException] from each of them;
    [Value] overrides all five.  The binary floating point types and
    their extraction are parameters: only the control flow of [ToFloat]
    and [ToDouble] is embedded. *)

Definition ToString (n : Node) : Thrown string :=
  match n with
  | Value _ valueStr =>
      if IsNull n then Returns "null" else Returns valueStr
  | _ => Throws TypeException
  end.

Definition ToInt (n : Node) : Thrown Z :=
  match n with
  | Value _ valueStr =>
      if IsNumber n then Returns (extract_int valueStr) else Returns 0%Z
  | _ => Throws TypeException
  end.

Definition ToBool (n : Node) : Thrown bool :=
  match n with
  | Value _ valueStr =>
      if IsBool n then Returns (valueStr =? "true") else Returns false
  | _ => Throws TypeException
  end.

Section FloatingPoint.

Variable float_t : Type.
Variable float_zero : float_t.
Variable extract_float : string -> float_t.

Variable double_t : Type.
Variable double_zero : double_t.
Variable extract_double : string -> double_t.

Definition ToFloat (n : Node) : Thrown float_t :=
  match n with
  | Value _ valueStr =>
      if IsNumber n then Returns (extract_float valueStr)
      else Returns float_zero
  | _ => Throws TypeException
  end.

Definition ToDouble (n : Node) : Thrown double_t :=
  match n with
  | Value _ valueStr =>
      if IsNumber n then Returns (extract_double valueStr)
      else Returns double_zero
  | _ => Throws TypeException
  end.

End FloatingPoint.

(** ** Escaping *)

(** [chrPair] and the table [chars]. *)
Record chrPair : Type := mkChrPair { first : ascii; second : string }.

Definition chars : list chrPair :=
  [ mkChrPair BACKSLASH (String BACKSLASH (str1 BACKSLASH));
    mkChrPair "/"%char (String BACKSLASH "/");
    mkChrPair DQUOTE (String BACKSLASH (str1 DQUOTE));
    mkChrPair LF (String BACKSLASH "n");
    mkChrPair TAB (String BACKSLASH "t");
    mkChrPair BACKSPACE (String BACKSLASH "b");
    mkChrPair FF (String BACKSLASH "f");
    mkChrPair CR (String BACKSLASH "r") ].

Definition nullUnescaped : ascii := NUL.
Definition nullEscaped : string := String NUL (str1 NUL).

(** [chars[i]]. *)
Definition chars_at (i : nat) : chrPair :=
  nth i chars (mkChrPair NUL EmptyString).

(** [for (auto &&chr : chars) if (chr.first == c) return chr.second;] *)
Fixpoint getEscaped_from (tbl : list chrPair) (c : ascii) : string :=
  match tbl with
  | chr :: tl =>
      if (first chr =? c)%char then second chr else getEscaped_from tl c
  | [] => nullEscaped
  end.

Definition getEscaped (c : ascii) : string := getEscaped_from chars c.

(** [for (auto &&chr : chars)
      if (c1 == chars[0].first && c2 == chars[1].first) return chr.first;]
    The condition does not mention [chr]. *)
Fixpoint getUnescaped_from (tbl : list chrPair) (c1 c2 : ascii) : ascii :=
  match tbl with
  | chr :: tl =>
      if (c1 =? first (chars_at 0))%char && (c2 =? first (chars_at 1))%char
      then first chr
      else getUnescaped_from tl c1 c2
  | [] => nullUnescaped
  end.

Definition getUnescaped (c1 c2 : ascii) : ascii :=
  getUnescaped_from chars c1 c2.

Fixpoint EscapeString (value : string) : string :=
  match value with
  | String c rest =>
      let a := getEscaped c in
      (if negb (at_ a 0 =? NUL)%char
       then String (at_ a 0) (str1 (at_ a 1))
       else str1 c)
      ++ EscapeString rest
  | EmptyString => EmptyString
  end.

(** The iterator [it] is the unread suffix; [it + 1 != value.end()] says
    that the suffix has a second character. *)
Fixpoint UnescapeString (value : string) : string :=
  match value with
  | String c rest =>
      let c2 := match rest with String c' _ => c' | EmptyString => NUL end in
      let a := getUnescaped c c2 in
      if negb (a =? NUL)%char
      then String a (match rest with
                     | String _ rest' => UnescapeString rest'
                     | EmptyString => EmptyString
                     end)
      else String c (UnescapeString rest)
  | EmptyString => EmptyString
  end.

(** *** Setters of [Value] *)

Definition SetNull : Node := Value VT_NULL EmptyString.

(** [Value::Set(ValueType, const std::string &)]. *)
Definition Set_typed (type : ValueType) (value : string) : Node :=
  Value type value.

(** [Value::Set(const std::string &)]. *)
Definition Set_string (value : string) : Node :=
  Value VT_STRING (UnescapeString value).

(** [Value::Set(bool)]. *)
Definition Set_bool (value : bool) : Node :=
  Value VT_BOOL (if value then "true" else "false").

(** ** Object *)

Module Obj.

Definition ChildList : Type := list (string * Node).

(** [children.emplace_back(name, node.GetCopy())]. *)
Definition Add (children : ChildList) (name : string) (node : Node)
  : ChildList :=
  (children ++ [(name, GetCopy node)])%list.

(** The loop of [Object::Remove]: the first entry whose name is [name]
    is erased and the loop is left. *)
Fixpoint Remove (children : ChildList) (name : string) : ChildList :=
  match children with
  | it :: rest =>
      if fst it =? name then rest else it :: Remove rest name
  | [] => []
  end.

Definition Clear (children : ChildList) : ChildList := [].

(** [std::any_of]. *)
Definition Has (children : ChildList) (name : string) : bool :=
  existsb (fun child => fst child =? name) children.

Definition GetCount (children : ChildList) : nat := List.length children.

Fixpoint Get (children : ChildList) (name : string) : Thrown Node :=
  match children with
  | child :: rest =>
      if fst child =? name then Returns (snd child) else Get rest name
  | [] => Throws NotFoundException
  end.

End Obj.

(** ** Array *)

Module Arr.

Definition ChildList : Type := list Node.

Definition Add (children : ChildList) (node : Node) : ChildList :=
  (children ++ [GetCopy node])%list.

(** [children.erase(children.begin() + index)]. *)
Fixpoint erase (children : ChildList) (index : nat) : ChildList :=
  match children, index with
  | _ :: rest, O => rest
  | c :: rest, S i => c :: erase rest i
  | [], _ => []
  end.

(** [if (index < children.size()) { ... erase ... }]; there is no
    [else] and no [throw]. *)
Definition Remove (children : ChildList) (index : nat) : Thrown ChildList :=
  if (index <? List.length children)%nat
  then Returns (erase children index)
  else Returns children.

Definition Clear (children : ChildList) : ChildList := [].

Definition GetCount (children : ChildList) : nat := List.length children.

Definition Get (children : ChildList) (index : nat) : Thrown Node :=
  if (index <? List.length children)%nat
  then match nth_error children index with
       | Some n => Returns n
       | None => Throws NotFoundException
       end
  else Throws NotFoundException.

End Arr.

(** The virtual members of [Node] that the containers override. *)

Definition GetCount (n : Node) : nat :=
  match n with
  | Object children => Obj.GetCount children
  | Array children => Arr.GetCount children
  | Value _ _ => 0
  end.

Definition Get_name (n : Node) (name : string) : Thrown Node :=
  match n with
  | Object children => Obj.Get children name
  | _ => Throws TypeException
  end.

Definition Get_index (n : Node) (index : nat) : Thrown Node :=
  match n with
  | Array children => Arr.Get children index
  | _ => Throws TypeException
  end.

(** ** Format and FormatInterpreter *)

Record Format : Type := mkFormat {
  newline : bool;
  spacing : bool;
  useTabs : bool;
  indentSize : N
}.

Definition StandardFormat : Format := mkFormat true true true 1.
Definition NoFormat : Format := mkFormat false false false 0.

Definition SIZE_MOD : N := 2 ^ 64.

Module FormatInterpreter.

Record t : Type := mk {
  format : Format;
  indentationChar : ascii;
  newline_ : string;
  spacing_ : string
}.

Definition SetFormat (f : Format) : t :=
  let sp := if spacing f then str1 SPACE else EmptyString in
  {| format := f;
     indentationChar := if useTabs f then TAB else SPACE;
     spacing_ := sp;
     newline_ := if newline f then str1 LF else sp |}.

(** [std::string(format.indentSize * level, indentationChar)], the
    product taken in [size_t]. *)
Definition GetIndentation (fi : t) (level : N) : string :=
  if newline (format fi)
  then fill (N.to_nat ((indentSize (format fi) * level) mod SIZE_MOD))
            (indentationChar fi)
  else EmptyString.

Definition GetNewline (fi : t) : string := newline_ fi.
Definition GetSpacing (fi : t) : string := spacing_ fi.

End FormatInterpreter.

(** ** Writer

    Every writing member appends to [result]; the functions below return
    the text that one call appends. *)

Module Writer.

Import FormatInterpreter.

Definition next_level (level : N) : N := ((level + 1) mod SIZE_MOD)%N.

Definition writeValue (node : Node) : string :=
  match node with
  | Value _ valueStr =>
      let text := if IsNull node then "null" else valueStr in
      if IsString node
      then str1 DQUOTE ++ EscapeString text ++ str1 DQUOTE
      else text
  | _ => EmptyString
  end.

(** In the two loops [begin] says whether [it == node.begin()]. *)
Fixpoint writeNode (fi : t) (node : Node) (level : N) : string :=
  match node with
  | Object children =>
      let fix entries (begin : bool) (its : list (string * Node)) : string :=
        match its with
        | it :: rest =>
            (if begin then EmptyString else "," ++ GetNewline fi)
            ++ GetIndentation fi (next_level level)
            ++ str1 DQUOTE ++ fst it ++ str1 DQUOTE ++ ":" ++ GetSpacing fi
            ++ writeNode fi (snd it) (next_level level)
            ++ entries false rest
        | [] => EmptyString
        end in
      "{" ++ GetNewline fi
      ++ entries true children
      ++ GetNewline fi ++ GetIndentation fi level ++ "}"
  | Array children =>
      let fix elements (begin : bool) (its : list Node) : string :=
        match its with
        | value :: rest =>
            (if begin then EmptyString else "," ++ GetNewline fi)
            ++ GetIndentation fi (next_level level)
            ++ writeNode fi value (next_level level)
            ++ elements false rest
        | [] => EmptyString
        end in
      "[" ++ GetNewline fi
      ++ elements true children
      ++ GetNewline fi ++ GetIndentation fi level ++ "]"
  | Value _ _ => writeValue node
  end.

(** [Writer(root, format).Write()]. *)
Definition Write (root : Node) (f : Format) : string :=
  writeNode (SetFormat f) root 0.

End Writer.

(** ** Parser *)

Module Parser.

Inductive Token : Type :=
| T_UNKNOWN
| T_OBJ_BEGIN
| T_OBJ_END
| T_ARRAY_BEGIN
| T_ARRAY_END
| T_SEPARATOR_NODE
| T_SEPARATOR_NAME
| T_VALUE.

Definition Token_eqb (a b : Token) : bool :=
  match a, b with
  | T_UNKNOWN, T_UNKNOWN
  | T_OBJ_BEGIN, T_OBJ_BEGIN
  | T_OBJ_END, T_OBJ_END
  | T_ARRAY_BEGIN, T_ARRAY_BEGIN
  | T_ARRAY_END, T_ARRAY_END
  | T_SEPARATOR_NODE, T_SEPARATOR_NODE
  | T_SEPARATOR_NAME, T_SEPARATOR_NAME
  | T_VALUE, T_VALUE => true
  | _, _ => false
  end.

(** An element of the queue [data]. *)
Definition Datum : Type := (ValueType * string)%type.

(** The free functions [IsWhitespace(char)] and [IsNumber(char)]. *)
Definition IsWhitespace (c : ascii) : bool :=
  (c =? LF)%char || (c =? SPACE)%char || (c =? TAB)%char
  || (c =? CR)%char || (c =? FF)%char.

Definition IsNumber (c : ascii) : bool :=
  ((48 <=? nat_of_ascii c)%nat && (nat_of_ascii c <=? 57)%nat)
  || (c =? ".")%char || (c =? "-")%char.

(** [toupper] in the classic locale. *)
Definition toupper (c : ascii) : ascii :=
  if (97 <=? nat_of_ascii c)%nat && (nat_of_ascii c <=? 122)%nat
  then ascii_of_nat (nat_of_ascii c - 32)
  else c.

Fixpoint all_of (p : ascii -> bool) (s : string) : bool :=
  match s with
  | String c r => p c && all_of p r
  | EmptyString => true
  end.

(** *** The local [upperValue] of [interpretValue]

    A [std::string] object as far as [interpretValue] uses one: the
    characters of its storage and its size.  [reserve] allocates
    storage and leaves the size at [0].  [std::transform] stores through
    the output iterator [upperValue.begin()] and calls no member of the
    string, so the characters land in the storage and the size is not
    changed.  (The C++ standard gives no meaning to a store past
    [size()]; this is what the implementations do.)  The comparison with
    a literal looks at the first [size()] characters. *)

Record StdString : Type := mkStdString { storage : string; size : nat }.

Definition reserve (n : nat) : StdString :=
  {| storage := fill n NUL; size := 0 |}.

Fixpoint store_from (f : ascii -> ascii) (src dst : string) : string :=
  match src with
  | String c r =>
      String (f c)
        (store_from f r
           (match dst with String _ d => d | EmptyString => EmptyString end))
  | EmptyString => dst
  end.

Definition transform (f : ascii -> ascii) (src : string) (out : StdString)
  : StdString :=
  {| storage := store_from f src (storage out); size := size out |}.

Definition contents (s : StdString) : string :=
  substring 0 (size s) (storage s).

(** [interpretValue] returns [true] after [data.emplace(d)], here
    [Some d], and [false] without touching [data], here [None]. *)
Definition interpretValue (value : string) : option Datum :=
  let upperValue := transform toupper value (reserve (String.length value)) in
  if contents upperValue =? "NULL" then Some (VT_NULL, EmptyString)
  else if contents upperValue =? "TRUE" then Some (VT_BOOL, "true")
  else if contents upperValue =? "FALSE" then Some (VT_BOOL, "false")
  else
    let number := all_of IsNumber value in
    if negb number then None
    else Some (VT_NUMBER, value).

(** *** The cursor

    The pair of [json] and [cursor] is the unread suffix [cur] of
    [json] that starts at [cursor]: [json.at(cursor)] is its first
    character, [cursor < jsonSize] says that it is not empty,
    [cursor == jsonSize - 1] that it has exactly one character, and
    [++cursor] drops its first character.  A cursor past the end is the
    empty suffix. *)

Definition advance (cur : string) : string :=
  match cur with
  | String _ r => r
  | EmptyString => EmptyString
  end.

Definition at_last (cur : string) : bool :=
  match cur with
  | String _ EmptyString => true
  | _ => false
  end.

Definition peek (cur : string) : ascii :=
  match cur with
  | String _ (String p _) => p
  | _ => NUL
  end.

Fixpoint jumpToNext_loop (c : ascii) (cur : string) : string :=
  match cur with
  | String x r => if negb (x =? c)%char then jumpToNext_loop c r else cur
  | EmptyString => EmptyString
  end.

Definition jumpToNext (c : ascii) (cur : string) : string :=
  jumpToNext_loop c (advance cur).

Fixpoint jumpToCommentEnd_loop (c1 : ascii) (cur : string) : string :=
  match cur with
  | String c2 r =>
      if (c1 =? "*")%char && (c2 =? "/")%char then cur
      else jumpToCommentEnd_loop c2 r
  | EmptyString => EmptyString
  end.

Definition jumpToCommentEnd (cur : string) : string :=
  jumpToCommentEnd_loop NUL (advance cur).

Fixpoint readString_loop (c1 : ascii) (str : string) (cur : string)
  : string * string :=
  match cur with
  | String c2 r =>
      if negb (c1 =? BACKSLASH)%char && (c2 =? DQUOTE)%char then (str, cur)
      else readString_loop c2 (str ++ str1 c2) r
  | EmptyString => (str, EmptyString)
  end.

(** The string that [readString] puts into [data] with kind
    [VT_STRING], if any, and the cursor it leaves. *)
Definition readString (cur : string) : option string * string :=
  match cur with
  | String c _ =>
      if negb (c =? DQUOTE)%char then (None, cur)
      else
        let (str, cur') := readString_loop NUL EmptyString (advance cur) in
        (Some str, cur')
  | EmptyString => (None, cur)
  end.

(** *** tokenize *)

(** The two queues and the locals [token] and [valueBuffer]. *)
Record Tok : Type := mkTok {
  tokens : list Token;
  data : list Datum;
  token : Token;
  valueBuffer : string
}.

Definition push_token (t : Token) (st : Tok) : Tok :=
  mkTok (tokens st ++ [t]) (data st) (token st) (valueBuffer st).

Definition push_data (d : Datum) (st : Tok) : Tok :=
  mkTok (tokens st) (data st ++ [d]) (token st) (valueBuffer st).

Definition set_token (t : Token) (st : Tok) : Tok :=
  mkTok (tokens st) (data st) t (valueBuffer st).

Definition set_buffer (b : string) (st : Tok) : Tok :=
  mkTok (tokens st) (data st) (token st) b.

(** The [switch (c)]: the new state, [saveBuffer] and the cursor. *)
Definition switch_char (c : ascii) (cur : string) (st : Tok)
  : Tok * bool * string :=
  if (c =? "{")%char then (set_token T_OBJ_BEGIN st, true, cur)
  else if (c =? "}")%char then (set_token T_OBJ_END st, true, cur)
  else if (c =? "[")%char then (set_token T_ARRAY_BEGIN st, true, cur)
  else if (c =? "]")%char then (set_token T_ARRAY_END st, true, cur)
  else if (c =? ",")%char then (set_token T_SEPARATOR_NODE st, true, cur)
  else if (c =? ":")%char then (set_token T_SEPARATOR_NAME st, true, cur)
  else if (c =? DQUOTE)%char then
    let (str, cur') := readString cur in
    let st1 := set_token T_VALUE st in
    (match str with
     | Some s => push_data (VT_STRING, s) st1
     | None => st1
     end, true, cur')
  else if (c =? "/")%char then
    let p := peek cur in
    if (p =? "*")%char then (st, true, jumpToCommentEnd cur)
    else if (p =? "/")%char then (st, true, jumpToNext LF cur)
    else (st, true, cur)
  else (set_buffer (valueBuffer st ++ str1 c) st, false, cur).

(** The body of [if ((saveBuffer || cursor == jsonSize - 1) &&
    !valueBuffer.empty())]. *)
Definition save_buffer (st : Tok) : Tok :=
  set_buffer EmptyString
    (match interpretValue (valueBuffer st) with
     | Some d => push_token T_VALUE (push_data d st)
     | None => push_token T_UNKNOWN (push_data (VT_STRING, valueBuffer st) st)
     end).

(** One iteration for a character that is not white space. *)
Definition tokenize_body (c : ascii) (cur : string) (st : Tok)
  : Tok * string :=
  let '(st1, saveBuffer, cur1) := switch_char c cur st in
  let st2 :=
    if (saveBuffer || at_last cur1) && negb (isEmpty (valueBuffer st1))
    then save_buffer st1 else st1 in
  let st3 := if saveBuffer then push_token (token st2) st2 else st2 in
  (st3, cur1).

(** The [for] loop.  Every iteration moves the cursor forward, so
    [fuel] at least the length of [cur] runs the loop to its end. *)
Fixpoint tokenize_loop (fuel : nat) (cur : string) (st : Tok) : Tok :=
  match fuel with
  | O => st
  | S fuel' =>
      match cur with
      | String c _ =>
          if IsWhitespace c then tokenize_loop fuel' (advance cur) st
          else
            let (st', cur') := tokenize_body c cur st in
            tokenize_loop fuel' (advance cur') st'
      | EmptyString => st
      end
  end.

Definition tokenize_init : Tok := mkTok [] [] T_UNKNOWN EmptyString.

Definition tokenize (json : string) : Tok :=
  tokenize_loop (String.length json) json tokenize_init.

(** *** assemble *)

(** An element of [nodeStack] points either to the caller's [root]
    ([node = &root]) or to a node that [assemble] allocated
    ([node = new Object], [new Array], [new Value]), which no one else
    refers to and which therefore is held by value. *)
Inductive NodePtr : Type :=
| to_root
| to_new (node : Node).

(** [nodeStack] (top first), [name], the queue [data], and the node
    that the reference [root] denotes. *)
Record Asm : Type := mkAsm {
  nodeStack : list (string * NodePtr);
  name : string;
  adata : list Datum;
  root : Node
}.

(** How [assemble] ends: [return true], [return false] with [error]
    set, or [data.front()] of an empty queue, to which C++ gives no
    meaning.  The final state is kept for inspection. *)
Inductive Outcome : Type :=
| Success (st : Asm)
| Failure (error : string) (st : Asm)
| Undefined.

(** A [case] that ends in [break] hands its state to the rest of the
    loop; one that returns ends the loop. *)
Definition andThen (o : Outcome) (k : Asm -> Outcome) : Outcome :=
  match o with
  | Success st => k st
  | Failure e st => Failure e st
  | Undefined => Undefined
  end.

Definition deref (st : Asm) (p : NodePtr) : Node :=
  match p with
  | to_root => root st
  | to_new node => node
  end.

(** The top frame, whose pointer is [p], now points to [node]. *)
Definition update_top (st : Asm) (node : Node) : Asm :=
  match nodeStack st with
  | (nm, to_root) :: below => mkAsm (nodeStack st) (name st) (adata st) node
  | (nm, to_new _) :: below =>
      mkAsm ((nm, to_new node) :: below) (name st) (adata st) (root st)
  | [] => st
  end.

(** [if (nodeStack.top().second->IsObject()) ...AsObject().Add(name, node);
     else if (nodeStack.top().second->IsArray()) ...AsArray().Add(node);]
    and [None] when neither branch is taken. *)
Definition add_to_top (st : Asm) (nm : string) (node : Node) : option Asm :=
  match nodeStack st with
  | (_, parent) :: _ =>
      match deref st parent with
      | Object children =>
          Some (update_top st (Object (Obj.Add children nm node)))
      | Array children =>
          Some (update_top st (Array (Arr.Add children node)))
      | Value _ _ => None
      end
  | [] => None
  end.

Definition set_name (nm : string) (st : Asm) : Asm :=
  mkAsm (nodeStack st) nm (adata st) (root st).

Definition set_stack (s : list (string * NodePtr)) (st : Asm) : Asm :=
  mkAsm s (name st) (adata st) (root st).

Definition set_data (d : list Datum) (st : Asm) : Asm :=
  mkAsm (nodeStack st) (name st) d (root st).

Definition set_root (r : Node) (st : Asm) : Asm :=
  mkAsm (nodeStack st) (name st) (adata st) r.

(** [case T_OBJ_BEGIN] ([kind = T_OBJECT]) and [case T_ARRAY_BEGIN]. *)
Definition case_begin (kind : Type_) (st : Asm) : Outcome :=
  match nodeStack st with
  | [] =>
      match kind with
      | T_OBJECT =>
          if negb (IsObject (root st))
          then Failure "The given root node is not an object" st
          else Success (set_name EmptyString
                          (set_stack [(name st, to_root)] st))
      | _ =>
          if negb (IsArray (root st))
          then Failure "The given root node is not an array" st
          else Success (set_name EmptyString
                          (set_stack [(name st, to_root)] st))
      end
  | _ :: _ =>
      let node := match kind with T_OBJECT => Object [] | _ => Array [] end in
      Success (set_name EmptyString
                 (set_stack ((name st, to_new node) :: nodeStack st) st))
  end.

(** [case T_OBJ_END: case T_ARRAY_END:].  After the pop a frame that
    is not the last one points to a node of [assemble]'s own, which is
    copied into its parent and deleted. *)
Definition case_end (token : Token) (st : Asm) : Outcome :=
  match nodeStack st with
  | [] => Failure "Found end of object or array without beginning" st
  | (nm, p) :: below =>
      if Token_eqb token T_OBJ_END && negb (IsObject (deref st p))
      then Failure "Mismatched end and beginning of object" st
      else if Token_eqb token T_ARRAY_END && negb (IsArray (deref st p))
      then Failure "Mismatched end and beginning of array" st
      else
        let node := deref st p in
        let st1 := set_stack below st in
        match below with
        | [] => Success st1
        | _ :: _ =>
            match add_to_top st1 nm node with
            | Some st2 => Success st2
            | None =>
                Failure "Can only add elements to objects and arrays" st1
            end
        end
  end.

(** [case T_VALUE] when the next token is [T_SEPARATOR_NAME] (which the
    caller pops). *)
Definition case_name (st : Asm) : Outcome :=
  match adata st with
  | [] => Undefined
  | (ty, text) :: rest =>
      if negb (ValueType_eqb ty VT_STRING)
      then Failure "A name has to be a string" st
      else Success (set_data rest (set_name text st))
  end.

(** What the two [Set] calls make of [data.front()]. *)
Definition value_of (d : Datum) : Node :=
  if ValueType_eqb (fst d) VT_STRING then Set_string (snd d)
  else Set_typed (fst d) (snd d).

(** [case T_VALUE] otherwise. *)
Definition case_value (st : Asm) : Outcome :=
  match nodeStack st with
  | [] =>
      if negb (IsValue (root st))
      then Failure "The given root node is not a value" st
      else
        match adata st with
        | [] => Undefined
        | d :: rest =>
            Success (set_name EmptyString
                       (set_stack [(name st, to_root)]
                          (set_data rest (set_root (value_of d) st))))
        end
  | _ :: _ =>
      match adata st with
      | [] => Undefined
      | d :: rest =>
          let node := value_of d in
          let st1 := set_data rest st in
          let st2 :=
            match add_to_top st1 (name st1) node with
            | Some st2 => st2
            | None => st1
            end in
          Success (set_name EmptyString st2)
      end
  end.

(** [case T_UNKNOWN]. *)
Definition case_unknown (st : Asm) : Outcome :=
  match adata st with
  | [] => Undefined
  | (_, unknownToken) :: rest =>
      Failure ("Unknown token: " ++ unknownToken) (set_data rest st)
  end.

(** The [while (!tokens.empty())] loop, by recursion on the queue. *)
Fixpoint assemble (tokens : list Token) (st : Asm) : Outcome :=
  match tokens with
  | [] => Success st
  | token :: rest =>
      match token with
      | T_UNKNOWN => case_unknown st
      | T_OBJ_BEGIN => andThen (case_begin T_OBJECT st) (assemble rest)
      | T_ARRAY_BEGIN => andThen (case_begin T_ARRAY st) (assemble rest)
      | T_OBJ_END | T_ARRAY_END =>
          andThen (case_end token st) (assemble rest)
      | T_VALUE =>
          match rest with
          | T_SEPARATOR_NAME :: rest' =>
              andThen (case_name st) (assemble rest')
          | _ => andThen (case_value st) (assemble rest)
          end
      | T_SEPARATOR_NAME | T_SEPARATOR_NODE => assemble rest st
      end
  end.

(** [Parser(root, json).Parse()]. *)
Definition Parse (root : Node) (json : string) : Outcome :=
  let q := tokenize json in
  assemble (tokens q) (mkAsm [] EmptyString (data q) root).

(** The result of [Parse()], [GetError()], and the caller's node after
    the call. *)
Definition succeeded (o : Outcome) : bool :=
  match o with Success _ => true | _ => false end.

Definition GetError (o : Outcome) : string :=
  match o with Failure e _ => e | _ => EmptyString end.

Definition root_after (o : Outcome) : option Node :=
  match o with
  | Success st | Failure _ st => Some (root st)
  | Undefined => None
  end.

(** *** The loop of [assemble], one iteration at a time

    [iteration] is one pass through the body of the [while] loop: the
    outcome of the [case] taken and the queue it leaves; [None] when the
    queue is empty and the loop is not entered.  [exhausts tokens st st']
    says that from [st] every iteration ends in [break] until [tokens]
    is used up, in state [st']. *)
Definition iteration (tokens : list Token) (st : Asm)
  : option (Outcome * list Token) :=
  match tokens with
  | [] => None
  | token :: rest =>
      Some
        match token with
        | T_UNKNOWN => (case_unknown st, rest)
        | T_OBJ_BEGIN => (case_begin T_OBJECT st, rest)
        | T_ARRAY_BEGIN => (case_begin T_ARRAY st, rest)
        | T_OBJ_END | T_ARRAY_END => (case_end token st, rest)
        | T_VALUE =>
            match rest with
            | T_SEPARATOR_NAME :: rest' => (case_name st, rest')
            | _ => (case_value st, rest)
            end
        | T_SEPARATOR_NAME | T_SEPARATOR_NODE => (Success st, rest)
        end
  end.

Inductive exhausts : list Token -> Asm -> Asm -> Prop :=
| exhausts_empty (st : Asm) : exhausts [] st st
| exhausts_break (tokens rest : list Token) (st st1 st' : Asm) :
    iteration tokens st = Some (Success st1, rest) ->
    exhausts rest st1 st' ->
    exhausts tokens st st'.

(** [tokenize] without the fuel: the loop from the suffix [cur]. *)
Definition tokenize_from (cur : string) (st : Tok) : Tok :=
  tokenize_loop (String.length cur) cur st.

End Parser.


(** ** The loops of the writer, on their own

    [writeEntries] and [writeElements] are the two [for] loops of
    [writeObject] and [writeArray] as functions of their own. *)

Module WriterLoops.

Import FormatInterpreter Writer.

Section Loops.

Variable fi : t.
Variable level : N.

Fixpoint writeEntries (begin : bool) (its : list (string * Node))
  : string :=
  match its with
  | it :: rest =>
      (if begin then EmptyString else "," ++ GetNewline fi)
      ++ GetIndentation fi (next_level level)
      ++ str1 DQUOTE ++ fst it ++ str1 DQUOTE ++ ":" ++ GetSpacing fi
      ++ writeNode fi (snd it) (next_level level)
      ++ writeEntries false rest
  | [] => EmptyString
  end.

Fixpoint writeElements (begin : bool) (its : list Node) : string :=
  match its with
  | value :: rest =>
      (if begin then EmptyString else "," ++ GetNewline fi)
      ++ GetIndentation fi (next_level level)
      ++ writeNode fi value (next_level level)
      ++ writeElements false rest
  | [] => EmptyString
  end.

End Loops.

(** What one iteration of the loop of [writeObject] appends after the
    separator. *)
Definition entry (fi : t) (level : N) (it : string * Node) : string :=
  GetIndentation fi (next_level level)
  ++ str1 DQUOTE ++ fst it ++ str1 DQUOTE ++ ":" ++ GetSpacing fi
  ++ writeNode fi (snd it) (next_level level).

End WriterLoops.

(** ** Trees that read back

    The trees for which the text of the compact format is read back by
    [Parser] as the same tree. *)

Module ReadBack.

Import Parser.
#[local] Open Scope list_scope.

(** [EscapeString] copies [c]. *)
Definition copied (c : ascii) : bool := (at_ (getEscaped c) 0 =? NUL)%char.

(** [closes c1 s]: the loop of [readString], entered with [c1] as the
    previous character, does not stop at a quote inside [s] and stops
    at a quote that follows [s]: every quote of [s] comes right after a
    backslash and the last character before the closing quote is not a
    backslash. *)
Fixpoint closes (c1 : ascii) (s : string) : bool :=
  match s with
  | String c2 r =>
      negb (negb (c1 =? BACKSLASH)%char && (c2 =? DQUOTE)%char)
      && closes c2 r
  | EmptyString => negb (c1 =? BACKSLASH)%char
  end.

Fixpoint readable (n : Node) : bool :=
  match n with
  | Value VT_NUMBER s => negb (isEmpty s) && all_of IsNumber s
  | Value VT_STRING s => all_of copied s
  | Value _ _ => false
  | Object children =>
      forallb (fun it => closes NUL (fst it) && readable (snd it)) children
  | Array children => forallb readable children
  end.

(** The node that the caller passes as [root]: a default-constructed
    node of the class of [n]. *)
Definition fresh (n : Node) : Node :=
  match n with
  | Object _ => Object []
  | Array _ => Array []
  | Value _ _ => SetNull
  end.

(** The queues that [tokenize] fills from the compact text of a
    readable tree. *)
Fixpoint tokens_of (n : Node) : list Token :=
  match n with
  | Value _ _ => [T_VALUE]
  | Object children =>
      T_OBJ_BEGIN ::
      (fix go (begin : bool) (its : list (string * Node)) : list Token :=
         match its with
         | it :: rest =>
             (if begin then [] else [T_SEPARATOR_NODE])
             ++ T_VALUE :: T_SEPARATOR_NAME :: tokens_of (snd it)
             ++ go false rest
         | [] => []
         end) true children
      ++ [T_OBJ_END]
  | Array children =>
      T_ARRAY_BEGIN ::
      (fix go (begin : bool) (its : list Node) : list Token :=
         match its with
         | value :: rest =>
             (if begin then [] else [T_SEPARATOR_NODE])
             ++ tokens_of value ++ go false rest
         | [] => []
         end) true children
      ++ [T_ARRAY_END]
  end.

Fixpoint entries_tokens (begin : bool) (its : list (string * Node))
  : list Token :=
  match its with
  | it :: rest =>
      (if begin then [] else [T_SEPARATOR_NODE])
      ++ T_VALUE :: T_SEPARATOR_NAME :: tokens_of (snd it)
      ++ entries_tokens false rest
  | [] => []
  end.

Fixpoint elements_tokens (begin : bool) (its : list Node) : list Token :=
  match its with
  | value :: rest =>
      (if begin then [] else [T_SEPARATOR_NODE])
      ++ tokens_of value ++ elements_tokens false rest
  | [] => []
  end.

Fixpoint data_of (n : Node) : list Datum :=
  match n with
  | Value t s => [(t, s)]
  | Object children =>
      flat_map (fun it => (VT_STRING, fst it) :: data_of (snd it)) children
  | Array children => flat_map data_of children
  end.

(** The interpreter of the compact format. *)
Definition compact : FormatInterpreter.t :=
  FormatInterpreter.SetFormat NoFormat.

(** The characters that the writer puts after a child, and their tokens. *)
Definition closer (c : ascii) : option Token :=
  if (c =? ",")%char then Some T_SEPARATOR_NODE
  else if (c =? "}")%char then Some T_OBJ_END
  else if (c =? "]")%char then Some T_ARRAY_END
  else None.

(** The tokens of the six structural characters. *)
Definition structural (c : ascii) : option Token :=
  if (c =? "{")%char then Some T_OBJ_BEGIN
  else if (c =? "}")%char then Some T_OBJ_END
  else if (c =? "[")%char then Some T_ARRAY_BEGIN
  else if (c =? "]")%char then Some T_ARRAY_END
  else if (c =? ",")%char then Some T_SEPARATOR_NODE
  else if (c =? ":")%char then Some T_SEPARATOR_NAME
  else None.

(** The next token is not [T_SEPARATOR_NAME]. *)
Definition no_name_follows (rest : list Token) : bool :=
  match rest with
  | T_SEPARATOR_NAME :: _ => false
  | _ => true
  end.

(** The container [parent] after [Add] of [node], under [nm] if it is an
    object. *)
Definition add_child (parent : Node) (nm : string) (node : Node)
  : option Node :=
  match parent with
  | Object children => Some (Object (Obj.Add children nm node))
  | Array children => Some (Array (Arr.Add children node))
  | Value _ _ => None
  end.

(** The state of [assemble] whose top frame, pushed under the name [fn]
    on the frames [below], points to the node [c]: a node of [assemble]'s
    own ([own = true], the root being [r]), or the root itself. *)
Definition top_holds (own : bool) (fn : string)
           (below : list (string * NodePtr)) (c r : Node)
           (nm : string) (d : list Datum) : Asm :=
  if own then mkAsm ((fn, to_new c) :: below) nm d r
  else mkAsm ((fn, to_root) :: below) nm d c.

(** The data of the entries of an object and of the elements of an
    array. *)
Definition entries_data (its : list (string * Node)) : list Datum :=
  flat_map (fun it => (VT_STRING, fst it) :: data_of (snd it)) its.

Definition elements_data (its : list Node) : list Datum :=
  flat_map data_of its.

(** [tokenizes n]: from the compact text of [n] and the character [c]
    that the writer puts after a child, [tokenize] pushes the tokens and
    data of [n] and the token of [c]. *)
Definition tokenizes (n : Node) : Prop :=
  forall level c t rest tk dt t0,
    closer c = Some t ->
    tokenize_from (Writer.writeNode compact n level ++ String c rest)
      (mkTok tk dt t0 EmptyString)
    = tokenize_from rest
        (mkTok (tk ++ tokens_of n ++ [t]) (dt ++ data_of n) t EmptyString).

(** [attaches n]: from the tokens and data of [n], [assemble] adds [n]
    to the container of the top frame, under the name in [name], and
    clears [name]. *)
Definition attaches (n : Node) : Prop :=
  forall rest drest own fn below c r nm c',
    no_name_follows rest = true ->
    add_child c nm n = Some c' ->
    assemble (tokens_of n ++ rest)
      (top_holds own fn below c r nm (data_of n ++ drest))
    = assemble rest (top_holds own fn below c' r EmptyString drest).

(** The stack that [assemble] leaves after the text of [n] alone. *)
Definition final_stack (n : Node) : list (string * NodePtr) :=
  match n with
  | Value _ _ => [(EmptyString, to_root)]
  | _ => []
  end.

End ReadBack.

(** ** Induction on nodes through their children *)

Definition Node_children_ind (P : Node -> Prop)
  (HValue : forall t s, P (Value t s))
  (HObject : forall children,
      Forall (fun it => P (snd it)) children -> P (Object children))
  (HArray : forall children, Forall P children -> P (Array children))
  : forall n, P n :=
  fix F (n : Node) : P n :=
    match n with
    | Value t s => HValue t s
    | Object children =>
        HObject children
          ((fix G (l : list (string * Node))
             : Forall (fun it => P (snd it)) l :=
              match l with
              | [] => Forall_nil _
              | it :: r => Forall_cons it (F (snd it)) (G r)
              end) children)
    | Array children =>
        HArray children
          ((fix G (l : list Node) : Forall P l :=
              match l with
              | [] => Forall_nil _
              | v :: r => Forall_cons v (F v) (G r)
              end) children)
    end.

(** ** Sample documents *)

Definition quoted (s : string) : string := str1 DQUOTE ++ s ++ str1 DQUOTE.

(** An object text with the entries [a: 1] and [b: 2], with a block
    comment between the [1] and the comma, and without. *)
Definition json_with_comment : string :=
  "{" ++ quoted "a" ++ ": 1 /* note */, " ++ quoted "b" ++ ": 2}".

Definition json_without_comment : string :=
  "{" ++ quoted "a" ++ ": 1, " ++ quoted "b" ++ ": 2}".

(** The same entries with a comment from two slashes to the end of the
    line after the [1]. *)
Definition json_with_line_comment : string :=
  "{" ++ quoted "a" ++ ": 1 // note" ++ str1 LF ++ ", " ++ quoted "b"
  ++ ": 2}".

(** The compact text of the object with the one entry [a: 1], and its
    tree. *)
Definition json_a1 : string := "{" ++ quoted "a" ++ ":1}".

Definition tree_a1 : Node := Object (Obj.Add [] "a" (Set_typed VT_NUMBER "1")).

(** Space indentation of width one with new lines and spacing. *)
Definition SpaceFormat : Format := mkFormat true true false 1.

(** The object with the one entry [1] under a name with a quote between
    [a] and [b]. *)
Definition tree_quote_in_name : Node :=
  Object (Obj.Add [] ("a" ++ str1 DQUOTE ++ "b") (Set_typed VT_NUMBER "1")).

(** A tree with every kind of node that reads back. *)
Definition tree_sample : Node :=
  Object
    [ ("a", Array [Value VT_NUMBER "1"; Value VT_STRING "x y"; Object []]);
      ("b", Value VT_NUMBER "-2.5") ].

(** ** Further members *)

(** *** Kind-narrowing accessors

    [Node::AsObject], [Node::AsArray] and [Node::AsValue] return the node
    itself, cast to the class asked for, or throw. *)

Definition AsObject (n : Node) : Thrown Node :=
  if IsObject n then Returns n else Throws TypeException.

Definition AsArray (n : Node) : Thrown Node :=
  if IsArray n then Returns n else Throws TypeException.

Definition AsValue (n : Node) : Thrown Node :=
  if IsValue n then Returns n else Throws TypeException.

(** *** Node::DetermineType *)

(** [std::find_if(json.begin(), json.end(), p)]: an iterator is the
    suffix that starts at it, [json.end()] the empty suffix. *)
Fixpoint find_if (p : ascii -> bool) (json : string) : string :=
  match json with
  | String c r => if p c then json else find_if p r
  | EmptyString => EmptyString
  end.

Definition DetermineType (json : string) : Type_ :=
  match find_if Parser.IsWhitespace json with
  | EmptyString => T_VALUE
  | String c _ =>
      if (c =? "{")%char then T_OBJECT
      else if (c =? "[")%char then T_ARRAY
      else T_VALUE
  end.

(** *** Classes of characters and texts *)

Module Lexical.

Import Parser.

(** The characters for which [switch (c)] of [tokenize] takes the
    [default] branch: no white space, none of the six structural
    characters, no quote and no slash. *)
Definition literal (c : ascii) : bool :=
  negb (IsWhitespace c)
  && match ReadBack.structural c with Some _ => false | None => true end
  && negb (c =? DQUOTE)%char
  && negb (c =? "/")%char.

Definition blank (s : string) : bool := all_of IsWhitespace s.


(** Somewhere in [s] a backslash is followed by a slash. *)
Fixpoint has_escaped_slash (s : string) : bool :=
  match s with
  | String c r =>
      ((c =? BACKSLASH)%char
       && match r with
          | String c2 _ => (c2 =? "/")%char
          | EmptyString => false
          end)
      || has_escaped_slash r
  | EmptyString => false
  end.

(** [s] in upper case, and whether it is one of the three words that
    [interpretValue] compares with. *)
Fixpoint upper (s : string) : string :=
  match s with
  | String c r => String (toupper c) (upper r)
  | EmptyString => EmptyString
  end.

Definition keyword (s : string) : bool :=
  (upper s =? "NULL") || (upper s =? "TRUE") || (upper s =? "FALSE").

(** [s] ends in a backslash. *)
Fixpoint ends_in_backslash (s : string) : bool :=
  match s with
  | String c EmptyString => (c =? BACKSLASH)%char
  | String _ r => ends_in_backslash r
  | EmptyString => false
  end.

End Lexical.

(** *** The root before and after a parse *)

(** [extends before after]: [after] is of the class of [before], and for
    a container it holds the children of [before], in their order,
    followed by more. *)
Definition extends (before after : Node) : Prop :=
  match before, after with
  | Object a, Object b => exists more, b = (a ++ more)%list
  | Array a, Array b => exists more, b = (a ++ more)%list
  | Value _ _, Value _ _ => True
  | _, _ => False
  end.

(** [extends] for the root that an outcome of [assemble] leaves. *)
Definition outcome_extends (before : Node) (o : Parser.Outcome) : Prop :=
  match o with
  | Parser.Success st | Parser.Failure _ st => extends before (Parser.root st)
  | Parser.Undefined => True
  end.

(** The root [root] after the children of [n] were added to it, or after
    it was set to the value [n]. *)
Definition merge (root n : Node) : Node :=
  match root, n with
  | Object a, Object b => Object (a ++ b)
  | Array a, Array b => Array (a ++ b)
  | _, _ => n
  end.

Definition same_kind (a b : Node) : bool :=
  match GetType a, GetType b with
  | T_OBJECT, T_OBJECT | T_ARRAY, T_ARRAY | T_VALUE, T_VALUE => true
  | _, _ => false
  end.

(** [tokenizes_in f n]: [ReadBack.tokenizes] for the text of [n] in the
    format [f], followed by white space and then by the character that
    the writer puts after a child. *)
Definition tokenizes_in (f : Format) (n : Node) : Prop :=
  forall level ws c t rest tk dt t0,
    Lexical.blank ws = true ->
    ReadBack.closer c = Some t ->
    Parser.tokenize_from
      (Writer.writeNode (FormatInterpreter.SetFormat f) n level
       ++ ws ++ String c rest)
      (Parser.mkTok tk dt t0 EmptyString)
    = Parser.tokenize_from rest
        (Parser.mkTok (tk ++ ReadBack.tokens_of n ++ [t])
           (dt ++ ReadBack.data_of n) t EmptyString).

(** What one iteration of the loop of [writeArray] appends after the
    separator. *)
Definition element (fi : FormatInterpreter.t) (level : N) (value : Node)
  : string :=
  FormatInterpreter.GetIndentation fi (Writer.next_level level)
  ++ Writer.writeNode fi value (Writer.next_level level).

(** * Properties *)

(** ** Escaping *)

Lemma getUnescaped_only_slash (c1 c2 : ascii) :
  getUnescaped c1 c2 =
  if (c1 =? BACKSLASH)%char && (c2 =? "/")%char then BACKSLASH else NUL.
Proof.
  unfold getUnescaped, chars. simpl.
  destruct ((c1 =? BACKSLASH)%char && (c2 =? "/")%char); reflexivity.
Qed.

(** C2.  [UnescapeString] is not the inverse of [EscapeString]:
    [getUnescaped] answers the backslash for the pair backslash, slash and
    the null character for every other pair, so the escaped form of a
    slash is read back as a backslash, and the escaped form of a line feed is
    read back as the two characters backslash, [n]. *)
Theorem UnescapeString_EscapeString_slash :
  EscapeString "/" = String BACKSLASH "/"
  /\ UnescapeString (EscapeString "/") = str1 BACKSLASH
  /\ UnescapeString (EscapeString "/") <> "/"
  /\ UnescapeString (EscapeString (str1 LF)) = String BACKSLASH "n"
  /\ UnescapeString (EscapeString (str1 LF)) <> str1 LF.
Proof.
  repeat apply conj; try (vm_compute; reflexivity); vm_compute; discriminate.
Qed.

(** ** Classification of literals *)

Lemma upperValue_contents (value : string) :
  Parser.contents
    (Parser.transform Parser.toupper value
       (Parser.reserve (String.length value))) = EmptyString.
Proof. destruct value; reflexivity. Qed.

Lemma interpretValue_number_only (value : string) :
  Parser.interpretValue value =
  if Parser.all_of Parser.IsNumber value then Some (VT_NUMBER, value)
  else None.
Proof.
  unfold Parser.interpretValue. rewrite upperValue_contents. simpl.
  destruct (Parser.all_of Parser.IsNumber value); reflexivity.
Qed.

(** C3.  The classification of [interpretValue] at the literals: the
    texts [null], [true] and [false] are not recognised (the string that
    is compared with [NULL], [TRUE] and [FALSE] has size [0]), so parsing
    them into a [Value] root fails with [Unknown token]; [123] is a
    number that [ToInt] reads as [123], and [abc] is an unknown token. *)
Theorem interpretValue_misses_literals :
  Parser.interpretValue "null" = None
  /\ Parser.interpretValue "true" = None
  /\ Parser.interpretValue "false" = None
  /\ Parser.Parse SetNull "null"
     = Parser.Failure "Unknown token: null"
         (Parser.mkAsm [] EmptyString [] SetNull)
  /\ Parser.Parse SetNull "true"
     = Parser.Failure "Unknown token: true"
         (Parser.mkAsm [] EmptyString [] SetNull)
  /\ Parser.Parse SetNull "false"
     = Parser.Failure "Unknown token: false"
         (Parser.mkAsm [] EmptyString [] SetNull)
  /\ Parser.interpretValue "1-2.3" = Some (VT_NUMBER, "1-2.3")
  /\ Parser.root_after (Parser.Parse SetNull "123")
     = Some (Value VT_NUMBER "123")
  /\ Parser.succeeded (Parser.Parse SetNull "123") = true
  /\ IsNumber (Value VT_NUMBER "123") = true
  /\ ToInt (Value VT_NUMBER "123") = Returns 123%Z
  /\ Parser.Parse SetNull "abc"
     = Parser.Failure "Unknown token: abc"
         (Parser.mkAsm [] EmptyString [] SetNull).
Proof. repeat apply conj; vm_compute; reflexivity. Qed.

(** ** Comments *)

(** C4.  A comment is not transparent: after the comment [tokenize]
    pushes the value of [token] once more, here [T_SEPARATOR_NAME], and
    [assemble] takes the number [1] for a name; a block comment and a
    comment to the end of the line do the same.  The text without the
    comment parses into the object with the two entries. *)
Theorem comment_repeats_token :
  Parser.tokens (Parser.tokenize json_with_comment)
  = [ Parser.T_OBJ_BEGIN; Parser.T_VALUE; Parser.T_SEPARATOR_NAME;
      Parser.T_VALUE; Parser.T_SEPARATOR_NAME; Parser.T_SEPARATOR_NODE;
      Parser.T_VALUE; Parser.T_SEPARATOR_NAME; Parser.T_VALUE;
      Parser.T_OBJ_END ]
  /\ Parser.tokens (Parser.tokenize json_without_comment)
  = [ Parser.T_OBJ_BEGIN; Parser.T_VALUE; Parser.T_SEPARATOR_NAME;
      Parser.T_VALUE; Parser.T_SEPARATOR_NODE;
      Parser.T_VALUE; Parser.T_SEPARATOR_NAME; Parser.T_VALUE;
      Parser.T_OBJ_END ]
  /\ Parser.succeeded (Parser.Parse (Object []) json_with_comment) = false
  /\ Parser.GetError (Parser.Parse (Object []) json_with_comment)
     = "A name has to be a string"
  /\ Parser.root_after (Parser.Parse (Object []) json_with_comment)
     = Some (Object [])
  /\ Parser.tokens (Parser.tokenize json_with_line_comment)
     = Parser.tokens (Parser.tokenize json_with_comment)
  /\ Parser.Parse (Object []) json_with_line_comment
     = Parser.Parse (Object []) json_with_comment
  /\ Parser.Parse (Object []) json_without_comment
     = Parser.Success
         (Parser.mkAsm [] EmptyString []
            (Object [("a", Value VT_NUMBER "1"); ("b", Value VT_NUMBER "2")])).
Proof. repeat apply conj; vm_compute; reflexivity. Qed.

(** ** Value accessors *)

(** C5, as the claim states it, fails: [ToInt] of a string value returns
    [0] and [ToBool] of a number value returns [false]; neither throws. *)
Lemma ToInt_of_string_does_not_throw :
  ToInt (Value VT_STRING "12") = Returns 0%Z
  /\ ToInt (Value VT_STRING "12") <> Throws TypeException
  /\ ToBool (Value VT_NUMBER "1") = Returns false
  /\ ToBool (Value VT_NUMBER "1") <> Throws TypeException.
Proof. repeat apply conj; try reflexivity; discriminate. Qed.

(** C5, amended.  The five accessors throw [TypeException] on an object
    and on an array, and never on a value: there [ToString] returns
    [null] for the null kind and the stored text otherwise, [ToInt],
    [ToFloat] and [ToDouble] return the number read from the text for the
    number kind and zero for the other kinds, and [ToBool] returns whether
    the text is [true] for the bool kind and [false] for the other
    kinds. *)
Theorem accessors_throw_on_containers_only
  (float_t : Type) (float_zero : float_t) (extract_float : string -> float_t)
  (double_t : Type) (double_zero : double_t)
  (extract_double : string -> double_t) (n : Node) :
  match n with
  | Value type valueStr =>
      ToString n
      = Returns (if ValueType_eqb type VT_NULL then "null" else valueStr)
      /\ ToInt n
         = Returns (if ValueType_eqb type VT_NUMBER
                    then extract_int valueStr else 0%Z)
      /\ ToFloat float_t float_zero extract_float n
         = Returns (if ValueType_eqb type VT_NUMBER
                    then extract_float valueStr else float_zero)
      /\ ToDouble double_t double_zero extract_double n
         = Returns (if ValueType_eqb type VT_NUMBER
                    then extract_double valueStr else double_zero)
      /\ ToBool n
         = Returns (if ValueType_eqb type VT_BOOL
                    then valueStr =? "true" else false)
  | _ =>
      ToString n = Throws TypeException
      /\ ToInt n = Throws TypeException
      /\ ToFloat float_t float_zero extract_float n = Throws TypeException
      /\ ToDouble double_t double_zero extract_double n = Throws TypeException
      /\ ToBool n = Throws TypeException
  end.
Proof.
  destruct n as [type valueStr | children | children]; simpl;
    try (repeat apply conj; reflexivity).
  destruct type; repeat apply conj; reflexivity.
Qed.

(** ** The loop of assemble *)

Lemma assemble_iteration (tokens : list Parser.Token) (st : Parser.Asm) :
  Parser.assemble tokens st =
  match Parser.iteration tokens st with
  | None => Parser.Success st
  | Some (o, rest) => Parser.andThen o (Parser.assemble rest)
  end.
Proof.
  destruct tokens as [| token rest]; [reflexivity |].
  destruct token; simpl; try reflexivity.
  - unfold Parser.case_unknown.
    destruct (Parser.adata st) as [| [ty text] d]; reflexivity.
  - destruct rest as [| [] rest']; reflexivity.
Qed.

Lemma iteration_shorter (tokens rest : list Parser.Token)
      (st : Parser.Asm) (o : Parser.Outcome) :
  Parser.iteration tokens st = Some (o, rest) ->
  (List.length rest < List.length tokens)%nat.
Proof.
  destruct tokens as [| token tl]; simpl; [discriminate |].
  intros H. injection H as H.
  destruct token;
    try (injection H as _ <-; simpl; lia).
  destruct tl as [| [] tl']; injection H as _ <-; simpl; lia.
Qed.

Lemma assemble_Success_exhausts (n : nat) :
  forall tokens st st',
    (List.length tokens <= n)%nat ->
    Parser.assemble tokens st = Parser.Success st' ->
    Parser.exhausts tokens st st'.
Proof.
  induction n as [| n IH]; intros tokens st st' Hlen Hrun.
  - destruct tokens; [| simpl in Hlen; lia].
    simpl in Hrun. injection Hrun as <-. constructor.
  - rewrite assemble_iteration in Hrun.
    destruct (Parser.iteration tokens st) as [[o rest] |] eqn:Hit.
    + pose proof (iteration_shorter _ _ _ _ Hit) as Hsh.
      destruct o as [st1 | e st1 |]; simpl in Hrun; try discriminate.
      eapply Parser.exhausts_break; [exact Hit |].
      apply IH; [lia | exact Hrun].
    + destruct tokens; [| discriminate].
      injection Hrun as <-. constructor.
Qed.

Lemma exhausts_assemble_Success (tokens : list Parser.Token)
      (st st' : Parser.Asm) :
  Parser.exhausts tokens st st' ->
  Parser.assemble tokens st = Parser.Success st'.
Proof.
  induction 1 as [st | tokens rest st st1 st' Hit _ IH]; [reflexivity |].
  rewrite assemble_iteration, Hit. exact IH.
Qed.

(** C6.  [Parse] returns [true] exactly when every iteration of the loop
    of [assemble] ends in [break] until the queue of tokens is empty;
    with an empty queue it returns [true] whatever [nodeStack] holds; and
    for the text of two opening brackets and [1] it returns [true] with the
    root still empty, the inner array with its element [1] left on the
    stack. *)
Theorem Parse_succeeds_iff_tokens_exhausted :
  (forall root json,
      Parser.succeeded (Parser.Parse root json) = true <->
      exists st',
        Parser.exhausts (Parser.tokens (Parser.tokenize json))
          (Parser.mkAsm [] EmptyString (Parser.data (Parser.tokenize json))
             root) st')
  /\ (forall nodeStack name data root,
         Parser.assemble [] (Parser.mkAsm nodeStack name data root)
         = Parser.Success (Parser.mkAsm nodeStack name data root))
  /\ Parser.Parse (Array []) "[[1"
     = Parser.Success
         (Parser.mkAsm
            [ (EmptyString, Parser.to_new (Array [Value VT_NUMBER "1"]));
              (EmptyString, Parser.to_root) ]
            EmptyString [] (Array [])).
Proof.
  split; [| split; [reflexivity | vm_compute; reflexivity]].
  intros root json. unfold Parser.Parse. cbv zeta. split.
  - destruct (Parser.assemble _ _) as [st' | |] eqn:Hrun;
      simpl; try discriminate.
    intros _. exists st'.
    eapply assemble_Success_exhausts; [apply le_n | exact Hrun].
  - intros [st' Hex]. rewrite (exhausts_assemble_Success _ _ _ Hex).
    reflexivity.
Qed.

(** ** The kind of the root *)

(** C7.  An array text parsed into an object root and an object text
    parsed into an array root fail, the root untouched; with an empty
    [nodeStack], [T_OBJ_BEGIN] goes on only if the root is an object and
    [T_ARRAY_BEGIN] only if the root is an array, and [assemble] returns
    [false] with the message of the mismatch otherwise. *)
Theorem root_kind_is_enforced :
  (forall children,
      Parser.Parse (Object children) "[1,2]"
      = Parser.Failure "The given root node is not an array"
          (Parser.mkAsm [] EmptyString
             [(VT_NUMBER, "1"); (VT_NUMBER, "2")] (Object children)))
  /\ (forall children,
         Parser.Parse (Array children) json_a1
         = Parser.Failure "The given root node is not an object"
             (Parser.mkAsm [] EmptyString
                [(VT_STRING, "a"); (VT_NUMBER, "1")] (Array children)))
  /\ (forall rest name data root,
         Parser.assemble (Parser.T_OBJ_BEGIN :: rest)
           (Parser.mkAsm [] name data root)
         = if IsObject root
           then Parser.assemble rest
                  (Parser.mkAsm [(name, Parser.to_root)] EmptyString data root)
           else Parser.Failure "The given root node is not an object"
                  (Parser.mkAsm [] name data root))
  /\ (forall rest name data root,
         Parser.assemble (Parser.T_ARRAY_BEGIN :: rest)
           (Parser.mkAsm [] name data root)
         = if IsArray root
           then Parser.assemble rest
                  (Parser.mkAsm [(name, Parser.to_root)] EmptyString data root)
           else Parser.Failure "The given root node is not an array"
                  (Parser.mkAsm [] name data root)).
Proof.
  split; [| split; [| split]].
  - intros children. unfold Parser.Parse.
    replace (Parser.tokenize "[1,2]")
      with (Parser.mkTok
              [Parser.T_ARRAY_BEGIN; Parser.T_VALUE; Parser.T_SEPARATOR_NODE;
               Parser.T_VALUE; Parser.T_ARRAY_END]
              [(VT_NUMBER, "1"); (VT_NUMBER, "2")] Parser.T_ARRAY_END
              EmptyString)
      by (vm_compute; reflexivity).
    reflexivity.
  - intros children. unfold Parser.Parse.
    replace (Parser.tokenize json_a1)
      with (Parser.mkTok
              [Parser.T_OBJ_BEGIN; Parser.T_VALUE; Parser.T_SEPARATOR_NAME;
               Parser.T_VALUE; Parser.T_OBJ_END]
              [(VT_STRING, "a"); (VT_NUMBER, "1")] Parser.T_OBJ_END
              EmptyString)
      by (vm_compute; reflexivity).
    reflexivity.
  - intros rest name data root. simpl. unfold Parser.case_begin. simpl.
    destruct (IsObject root); reflexivity.
  - intros rest name data root. simpl. unfold Parser.case_begin. simpl.
    destruct (IsArray root); reflexivity.
Qed.

(** ** Strings *)

Lemma append_assoc (a b c : string) : (a ++ b) ++ c = a ++ b ++ c.
Proof. induction a as [| x a IH]; simpl; [| rewrite IH]; reflexivity. Qed.

Lemma append_nil_r (a : string) : a ++ EmptyString = a.
Proof. induction a as [| x a IH]; simpl; [| rewrite IH]; reflexivity. Qed.

(** ** Objects and arrays *)

Lemma Obj_Get_first (before after : Obj.ChildList) (name : string)
      (node : Node) :
  Obj.Has before name = false ->
  Obj.Get (before ++ (name, node) :: after)%list name = Returns node.
Proof.
  induction before as [| [k v] before IH]; simpl; intros H.
  - rewrite String.eqb_refl. reflexivity.
  - apply orb_false_iff in H as [Hk H]. rewrite Hk. apply IH, H.
Qed.

Lemma Obj_Get_missing (children : Obj.ChildList) (name : string) :
  Obj.Has children name = false ->
  Obj.Get children name = Throws NotFoundException.
Proof.
  induction children as [| [k v] children IH]; simpl; intros H;
    [reflexivity |].
  apply orb_false_iff in H as [Hk H]. rewrite Hk. apply IH, H.
Qed.

Lemma Obj_Remove_first (before after : Obj.ChildList) (name : string)
      (node : Node) :
  Obj.Has before name = false ->
  Obj.Remove (before ++ (name, node) :: after)%list name
  = (before ++ after)%list.
Proof.
  induction before as [| [k v] before IH]; simpl; intros H.
  - rewrite String.eqb_refl. reflexivity.
  - apply orb_false_iff in H as [Hk H]. rewrite Hk, IH by exact H.
    reflexivity.
Qed.

Lemma Obj_Remove_missing (children : Obj.ChildList) (name : string) :
  Obj.Has children name = false -> Obj.Remove children name = children.
Proof.
  induction children as [| [k v] children IH]; simpl; intros H;
    [reflexivity |].
  apply orb_false_iff in H as [Hk H]. rewrite Hk, IH by exact H.
  reflexivity.
Qed.

Lemma writeNode_Object (fi : FormatInterpreter.t) (level : N)
      (children : list (string * Node)) :
  Writer.writeNode fi (Object children) level =
  "{" ++ FormatInterpreter.GetNewline fi
  ++ WriterLoops.writeEntries fi level true children
  ++ FormatInterpreter.GetNewline fi
  ++ FormatInterpreter.GetIndentation fi level ++ "}".
Proof. reflexivity. Qed.

Lemma writeNode_Array (fi : FormatInterpreter.t) (level : N)
      (children : list Node) :
  Writer.writeNode fi (Array children) level =
  "[" ++ FormatInterpreter.GetNewline fi
  ++ WriterLoops.writeElements fi level true children
  ++ FormatInterpreter.GetNewline fi
  ++ FormatInterpreter.GetIndentation fi level ++ "]".
Proof. reflexivity. Qed.

Lemma writeEntries_concat (fi : FormatInterpreter.t) (level : N)
      (children : list (string * Node)) :
  WriterLoops.writeEntries fi level true children =
  String.concat ("," ++ FormatInterpreter.GetNewline fi)
    (map (WriterLoops.entry fi level) children).
Proof.
  assert (Hrest : forall its,
             WriterLoops.writeEntries fi level false its =
             match its with
             | [] => EmptyString
             | _ :: _ =>
                 ("," ++ FormatInterpreter.GetNewline fi)
                 ++ String.concat ("," ++ FormatInterpreter.GetNewline fi)
                      (map (WriterLoops.entry fi level) its)
             end).
  { induction its as [| it its IH]; [reflexivity |].
    cbn [WriterLoops.writeEntries map String.concat]. rewrite IH.
    unfold WriterLoops.entry.
    destruct its as [| it' its]; cbn [map];
      repeat rewrite append_assoc; repeat rewrite append_nil_r; reflexivity. }
  destruct children as [| it its]; [reflexivity |].
  cbn [WriterLoops.writeEntries map String.concat]. rewrite Hrest.
  unfold WriterLoops.entry.
  destruct its as [| it' its]; cbn [map];
    repeat rewrite append_assoc; repeat rewrite append_nil_r; reflexivity.
Qed.

(** C8.  [Add] puts the new entry after all the entries of the object,
    whatever they are and whether or not one of them has the name already,
    so entries of one name coexist in the order of their insertion; [Get]
    returns the first entry with the name and throws [NotFoundException]
    when there is none; [Remove] erases the first entry with the name and
    nothing else; and [writeObject] writes the entries in the order of
    [children], a comma and the new line between two of them. *)
Theorem Object_keeps_order_first_match
  (children before after others : Obj.ChildList) (name : string)
  (node other : Node)
  (Hbefore : Obj.Has before name = false)
  (Hothers : Obj.Has others name = false) :
  Obj.Add children name node = (children ++ [(name, node)])%list
  /\ Obj.Add (Obj.Add children name node) name other
     = (children ++ [(name, node); (name, other)])%list
  /\ Obj.GetCount (Obj.Add children name node) = S (Obj.GetCount children)
  /\ Obj.Add (before ++ (name, node) :: after)%list name other
     = (before ++ (name, node) :: after ++ [(name, other)])%list
  /\ Obj.Get (Obj.Add (before ++ (name, node) :: after)%list name other) name
     = Returns node
  /\ Obj.Add others name node = (others ++ [(name, node)])%list
  /\ Obj.GetCount (Obj.Add (Obj.Add others name node) name other)
     = S (S (Obj.GetCount others))
  /\ Obj.Get (Obj.Add (Obj.Add others name node) name other) name
     = Returns node
  /\ Obj.Get (before ++ (name, node) :: after)%list name = Returns node
  /\ Obj.Get others name = Throws NotFoundException
  /\ Obj.Remove (before ++ (name, node) :: after)%list name
     = (before ++ after)%list
  /\ Obj.Remove others name = others
  /\ (forall fi level entries,
         Writer.writeNode fi (Object entries) level =
         "{" ++ FormatInterpreter.GetNewline fi
         ++ String.concat ("," ++ FormatInterpreter.GetNewline fi)
              (map (WriterLoops.entry fi level) entries)
         ++ FormatInterpreter.GetNewline fi
         ++ FormatInterpreter.GetIndentation fi level ++ "}").
Proof.
  split; [reflexivity |].
  split.
  { unfold Obj.Add, GetCopy. rewrite <- app_assoc. reflexivity. }
  split.
  { unfold Obj.Add, Obj.GetCount, GetCopy. rewrite length_app. simpl. lia. }
  split.
  { unfold Obj.Add, GetCopy. rewrite <- app_assoc. reflexivity. }
  split.
  { unfold Obj.Add, GetCopy. rewrite <- app_assoc.
    apply Obj_Get_first, Hbefore. }
  split; [reflexivity |].
  split.
  { unfold Obj.Add, Obj.GetCount, GetCopy.
    repeat rewrite length_app. simpl. lia. }
  split.
  { unfold Obj.Add, GetCopy. rewrite <- app_assoc. simpl.
    apply Obj_Get_first, Hothers. }
  split; [apply Obj_Get_first, Hbefore |].
  split; [apply Obj_Get_missing, Hothers |].
  split; [apply Obj_Remove_first, Hbefore |].
  split; [apply Obj_Remove_missing, Hothers |].
  intros fi level entries.
  rewrite writeNode_Object, writeEntries_concat. reflexivity.
Qed.

Lemma Object_keeps_order_first_match_witness :
  Obj.Has [("x", SetNull)] "k" = false
  /\ Obj.Has [("y", Set_bool true)] "k" = false
  /\ Obj.Add [("k", SetNull); ("x", SetNull)] "k" (Set_bool false)
     = [("k", SetNull); ("x", SetNull); ("k", Set_bool false)]
  /\ Obj.Get
       ([("x", SetNull)] ++ ("k", Set_bool false) :: [("k", SetNull)])%list
       "k" = Returns (Set_bool false)
  /\ Obj.Remove
       ([("x", SetNull)] ++ ("k", Set_bool false) :: [("k", SetNull)])%list
       "k"
     = [("x", SetNull); ("k", SetNull)].
Proof.
  split; [reflexivity |]. split; [reflexivity |].
  pose proof (Object_keeps_order_first_match
                [("k", SetNull); ("x", SetNull)]
                [("x", SetNull)] [("k", SetNull)] [("y", Set_bool true)]
                "k" (Set_bool false) SetNull eq_refl eq_refl) as H.
  split; [apply H |]. split; [apply H | apply H].
Defined.

(** ** Formats *)

(** C9.  The object with the entry [a: 1] is written as the seven
    characters of [json_a1] in the compact format, and with new lines,
    spacing and one space of indentation as: open brace, line feed, one
    space, the quoted name, colon, space, [1], line feed, close brace. *)
Theorem Write_compact_and_indented :
  tree_a1 = Object [("a", Value VT_NUMBER "1")]
  /\ NoFormat = mkFormat false false false 0
  /\ SpaceFormat = mkFormat true true false 1
  /\ Writer.Write tree_a1 NoFormat
     = String "{" (String DQUOTE (String "a" (String DQUOTE ":1}")))
  /\ Writer.Write tree_a1 SpaceFormat
     = String "{" (String LF (String SPACE (String DQUOTE (String "a"
         (String DQUOTE (String ":" (String SPACE (String "1"
           (String LF "}"))))))))).
Proof. repeat apply conj; vm_compute; reflexivity. Qed.

(** C10.  [Array::Remove] with an index that is not below the count
    returns without an exception and leaves [children] as it is. *)
Theorem Array_Remove_out_of_range (children : Arr.ChildList) (index : nat)
  (Hindex : (Arr.GetCount children <= index)%nat) :
  Arr.Remove children index = Returns children
  /\ (forall e, Arr.Remove children index <> Throws e).
Proof.
  unfold Arr.Remove, Arr.GetCount in *.
  destruct (Nat.ltb_spec index (List.length children)) as [Hlt | _];
    [lia |].
  split; [reflexivity | discriminate].
Qed.

Lemma Array_Remove_out_of_range_witness :
  (Arr.GetCount [SetNull; Set_bool true] <= 2)%nat
  /\ Arr.Remove [SetNull; Set_bool true] 2
     = Returns [SetNull; Set_bool true].
Proof.
  split; [simpl; lia |].
  apply (Array_Remove_out_of_range [SetNull; Set_bool true] 2). simpl. lia.
Defined.

(** ** The loop of tokenize *)

Lemma advance_length (cur : string) :
  (String.length (Parser.advance cur) <= String.length cur)%nat.
Proof. destruct cur; simpl; lia. Qed.

Lemma jumpToNext_loop_length (c : ascii) (cur : string) :
  (String.length (Parser.jumpToNext_loop c cur) <= String.length cur)%nat.
Proof.
  induction cur as [| x r IH]; simpl; [lia |].
  destruct (negb (x =? c)%char); simpl; lia.
Qed.

Lemma jumpToCommentEnd_loop_length (cur : string) :
  forall c1,
    (String.length (Parser.jumpToCommentEnd_loop c1 cur)
     <= String.length cur)%nat.
Proof.
  induction cur as [| c2 r IH]; intros c1; simpl; [lia |].
  destruct ((c1 =? "*")%char && (c2 =? "/")%char); simpl;
    [lia | specialize (IH c2); lia].
Qed.

Lemma readString_loop_length (cur : string) :
  forall c1 str,
    (String.length (snd (Parser.readString_loop c1 str cur))
     <= String.length cur)%nat.
Proof.
  induction cur as [| c2 r IH]; intros c1 str; simpl; [lia |].
  destruct (negb (c1 =? BACKSLASH)%char && (c2 =? DQUOTE)%char); simpl;
    [lia | specialize (IH c2 (str ++ str1 c2)); lia].
Qed.

Lemma readString_length (cur : string) :
  (String.length (snd (Parser.readString cur)) <= String.length cur)%nat.
Proof.
  destruct cur as [| c r]; simpl; [lia |].
  destruct (negb (c =? DQUOTE)%char); simpl; [lia |].
  pose proof (readString_loop_length r NUL EmptyString) as H.
  destruct (Parser.readString_loop NUL EmptyString r) as [str cur'].
  simpl in *. lia.
Qed.

Lemma switch_char_length (c : ascii) (cur : string) (st : Parser.Tok) :
  (String.length (snd (Parser.switch_char c cur st))
   <= String.length cur)%nat.
Proof.
  unfold Parser.switch_char.
  repeat match goal with
         | |- context [if ?b then _ else _] => destruct b; simpl; try lia
         end.
  - pose proof (readString_length cur) as H.
    destruct (Parser.readString cur) as [str cur']. simpl in *. lia.
  - unfold Parser.jumpToCommentEnd.
    pose proof (jumpToCommentEnd_loop_length (Parser.advance cur) NUL).
    pose proof (advance_length cur). lia.
  - unfold Parser.jumpToNext.
    pose proof (jumpToNext_loop_length LF (Parser.advance cur)).
    pose proof (advance_length cur). lia.
Qed.

Lemma tokenize_body_length (c : ascii) (cur : string) (st : Parser.Tok) :
  (String.length (snd (Parser.tokenize_body c cur st))
   <= String.length cur)%nat.
Proof.
  unfold Parser.tokenize_body.
  pose proof (switch_char_length c cur st) as H.
  destruct (Parser.switch_char c cur st) as [[st1 saveBuffer] cur1].
  exact H.
Qed.

Lemma tokenize_loop_fuel (n : nat) :
  forall m cur st,
    (String.length cur <= n)%nat -> (String.length cur <= m)%nat ->
    Parser.tokenize_loop n cur st = Parser.tokenize_loop m cur st.
Proof.
  induction n as [| n IH]; intros m cur st Hn Hm.
  - destruct cur; [| simpl in Hn; lia]. destruct m; reflexivity.
  - destruct cur as [| c r]; [destruct m; reflexivity |].
    destruct m as [| m]; [simpl in Hm; lia |].
    simpl in Hn, Hm. cbn [Parser.tokenize_loop].
    destruct (Parser.IsWhitespace c).
    + apply IH; simpl; lia.
    + pose proof (tokenize_body_length c (String c r) st) as Hb.
      destruct (Parser.tokenize_body c (String c r) st) as [st' cur'].
      pose proof (advance_length cur') as Ha. simpl in Hb.
      destruct cur' as [| c' r']; simpl in *; apply IH; simpl; lia.
Qed.

Lemma tokenize_from_nil (st : Parser.Tok) :
  Parser.tokenize_from EmptyString st = st.
Proof. reflexivity. Qed.

Lemma tokenize_from_cons (c : ascii) (r : string) (st : Parser.Tok) :
  Parser.tokenize_from (String c r) st =
  if Parser.IsWhitespace c then Parser.tokenize_from r st
  else Parser.tokenize_from
         (Parser.advance (snd (Parser.tokenize_body c (String c r) st)))
         (fst (Parser.tokenize_body c (String c r) st)).
Proof.
  unfold Parser.tokenize_from. cbn [String.length Parser.tokenize_loop].
  destruct (Parser.IsWhitespace c); [reflexivity |].
  pose proof (tokenize_body_length c (String c r) st) as Hb.
  destruct (Parser.tokenize_body c (String c r) st) as [st' cur'].
  cbn [fst snd] in *. pose proof (advance_length cur') as Ha.
  apply tokenize_loop_fuel; [| apply le_n].
  destruct cur'; simpl in *; lia.
Qed.

Arguments Parser.tokenize_from : simpl never.

Ltac tok_simpl :=
  unfold Parser.push_token, Parser.push_data, Parser.set_buffer,
    Parser.set_token;
  simpl.

Lemma structural_cases (c : ascii) (t : Parser.Token) :
  ReadBack.structural c = Some t ->
  (c = "{"%char /\ t = Parser.T_OBJ_BEGIN)
  \/ (c = "}"%char /\ t = Parser.T_OBJ_END)
  \/ (c = "["%char /\ t = Parser.T_ARRAY_BEGIN)
  \/ (c = "]"%char /\ t = Parser.T_ARRAY_END)
  \/ (c = ","%char /\ t = Parser.T_SEPARATOR_NODE)
  \/ (c = ":"%char /\ t = Parser.T_SEPARATOR_NAME).
Proof.
  unfold ReadBack.structural.
  repeat match goal with
         | |- context [(c =? ?x)%char] =>
             destruct (Ascii.eqb_spec c x) as [-> | _]
         end;
    intros H; try discriminate; injection H as <-; tauto.
Qed.

Lemma closer_structural (c : ascii) (t : Parser.Token) :
  ReadBack.closer c = Some t -> ReadBack.structural c = Some t.
Proof.
  unfold ReadBack.closer.
  repeat match goal with
         | |- context [(c =? ?x)%char] =>
             destruct (Ascii.eqb_spec c x) as [-> | _]
         end;
    intros H; try discriminate; exact H.
Qed.

Lemma switch_char_structural (c : ascii) (t : Parser.Token) (cur : string)
      (st : Parser.Tok) :
  ReadBack.structural c = Some t ->
  Parser.IsWhitespace c = false
  /\ Parser.switch_char c cur st = (Parser.set_token t st, true, cur).
Proof.
  intros H.
  destruct (structural_cases c t H)
    as [[-> ->] | [[-> ->] | [[-> ->] | [[-> ->] | [[-> ->] | [-> ->]]]]]];
    split; reflexivity.
Qed.

(** A structural character with an empty [valueBuffer] pushes its
    token. *)
Lemma tokenize_structural (c : ascii) (t t0 : Parser.Token) (rest : string)
      (tk : list Parser.Token) (dt : list Parser.Datum) :
  ReadBack.structural c = Some t ->
  Parser.tokenize_from (String c rest) (Parser.mkTok tk dt t0 EmptyString)
  = Parser.tokenize_from rest (Parser.mkTok (tk ++ [t]) dt t EmptyString).
Proof.
  intros H. rewrite tokenize_from_cons.
  destruct (switch_char_structural c t (String c rest)
              (Parser.mkTok tk dt t0 EmptyString) H) as [-> Hsw].
  unfold Parser.tokenize_body. rewrite Hsw. reflexivity.
Qed.

(** A structural character after a pending number pushes the number and
    then its token. *)
Lemma tokenize_structural_number (c : ascii) (t t0 : Parser.Token)
      (rest b : string) (tk : list Parser.Token) (dt : list Parser.Datum) :
  ReadBack.structural c = Some t ->
  isEmpty b = false ->
  Parser.all_of Parser.IsNumber b = true ->
  Parser.tokenize_from (String c rest) (Parser.mkTok tk dt t0 b)
  = Parser.tokenize_from rest
      (Parser.mkTok (tk ++ Parser.T_VALUE :: [t]) (dt ++ [(VT_NUMBER, b)])
         t EmptyString).
Proof.
  intros H Hb Hnum. rewrite tokenize_from_cons.
  destruct (switch_char_structural c t (String c rest)
              (Parser.mkTok tk dt t0 b) H) as [-> Hsw].
  unfold Parser.tokenize_body, Parser.save_buffer. rewrite Hsw.
  tok_simpl. rewrite Hb. simpl.
  rewrite interpretValue_number_only, Hnum. tok_simpl.
  rewrite <- app_assoc. reflexivity.
Qed.

Lemma readString_loop_closes (s : string) :
  forall c1 acc rest,
    ReadBack.closes c1 s = true ->
    Parser.readString_loop c1 acc (s ++ String DQUOTE rest)
    = (acc ++ s, String DQUOTE rest).
Proof.
  induction s as [| c2 r IH]; intros c1 acc rest H; simpl in *.
  - rewrite H, append_nil_r. reflexivity.
  - apply andb_true_iff in H as [Hc Hr].
    apply negb_true_iff in Hc. rewrite Hc.
    rewrite (IH c2 (acc ++ str1 c2) rest Hr).
    unfold str1. rewrite append_assoc. reflexivity.
Qed.

(** A quoted text that [readString] closes where the writer closed it
    pushes one string and [T_VALUE]. *)
Lemma tokenize_quoted (s rest : string) (t0 : Parser.Token)
      (tk : list Parser.Token) (dt : list Parser.Datum) :
  ReadBack.closes NUL s = true ->
  Parser.tokenize_from (String DQUOTE (s ++ String DQUOTE rest))
    (Parser.mkTok tk dt t0 EmptyString)
  = Parser.tokenize_from rest
      (Parser.mkTok (tk ++ [Parser.T_VALUE]) (dt ++ [(VT_STRING, s)])
         Parser.T_VALUE EmptyString).
Proof.
  intros H. rewrite tokenize_from_cons.
  change (Parser.IsWhitespace DQUOTE) with false. cbv iota.
  unfold Parser.tokenize_body, Parser.switch_char.
  change ((DQUOTE =? "{")%char) with false.
  change ((DQUOTE =? "}")%char) with false.
  change ((DQUOTE =? "[")%char) with false.
  change ((DQUOTE =? "]")%char) with false.
  change ((DQUOTE =? ",")%char) with false.
  change ((DQUOTE =? ":")%char) with false.
  change ((DQUOTE =? DQUOTE)%char) with true. cbv iota.
  unfold Parser.readString.
  change ((DQUOTE =? DQUOTE)%char) with true.
  cbn [negb Parser.advance].
  rewrite (readString_loop_closes s NUL EmptyString rest H).
  tok_simpl. reflexivity.
Qed.

Lemma number_char (c : ascii) :
  Parser.IsNumber c = true ->
  Parser.IsWhitespace c = false
  /\ forall cur st,
      Parser.switch_char c cur st
      = (Parser.set_buffer (Parser.valueBuffer st ++ str1 c) st, false, cur).
Proof.
  destruct c as [[] [] [] [] [] [] [] []]; intros H; vm_compute in H;
    try discriminate H; split; try reflexivity; intros; reflexivity.
Qed.

Lemma all_of_append (p : ascii -> bool) (a b : string) :
  Parser.all_of p (a ++ b) = Parser.all_of p a && Parser.all_of p b.
Proof.
  induction a as [| c a IH]; simpl; [reflexivity |].
  rewrite IH, andb_assoc. reflexivity.
Qed.

Lemma isEmpty_append_r (a : string) (c : ascii) (b : string) :
  isEmpty (a ++ String c b) = false.
Proof. destruct a; reflexivity. Qed.

Lemma at_last_more (c : ascii) (r : string) :
  isEmpty r = false -> Parser.at_last (String c r) = false.
Proof. destruct r; [discriminate | reflexivity]. Qed.

(** The characters of a number before another character go to
    [valueBuffer]. *)
Lemma tokenize_digits (s : string) :
  forall b rest tk dt t0,
    Parser.all_of Parser.IsNumber s = true ->
    isEmpty rest = false ->
    Parser.tokenize_from (s ++ rest) (Parser.mkTok tk dt t0 b)
    = Parser.tokenize_from rest (Parser.mkTok tk dt t0 (b ++ s)).
Proof.
  induction s as [| c r IH]; intros b rest tk dt t0 Hs Hrest.
  - rewrite append_nil_r. reflexivity.
  - simpl in Hs. apply andb_true_iff in Hs as [Hc Hr].
    destruct (number_char c Hc) as [Hws Hsw].
    cbn [append]. rewrite tokenize_from_cons, Hws.
    unfold Parser.tokenize_body. rewrite Hsw.
    rewrite at_last_more by (destruct r; [exact Hrest | reflexivity]).
    tok_simpl. rewrite IH by assumption.
    unfold str1. rewrite append_assoc. reflexivity.
Qed.

(** The characters of a number at the end of the text are pushed at the
    last of them. *)
Lemma tokenize_digits_last (s : string) :
  forall b tk dt t0,
    isEmpty s = false ->
    Parser.all_of Parser.IsNumber b = true ->
    Parser.all_of Parser.IsNumber s = true ->
    Parser.tokenize_from s (Parser.mkTok tk dt t0 b)
    = Parser.mkTok (tk ++ [Parser.T_VALUE]) (dt ++ [(VT_NUMBER, b ++ s)])
        t0 EmptyString.
Proof.
  induction s as [| c r IH]; intros b tk dt t0 Hne Hb Hs; [discriminate |].
  simpl in Hs. apply andb_true_iff in Hs as [Hc Hr].
  destruct (number_char c Hc) as [Hws Hsw].
  rewrite tokenize_from_cons, Hws.
  unfold Parser.tokenize_body. rewrite Hsw.
  destruct r as [| c' r'].
  - unfold Parser.save_buffer, str1. tok_simpl.
    rewrite isEmpty_append_r. simpl.
    rewrite interpretValue_number_only, all_of_append, Hb. simpl.
    rewrite Hc. reflexivity.
  - rewrite at_last_more by reflexivity. tok_simpl.
    rewrite IH; try reflexivity; try assumption.
    + unfold str1. rewrite append_assoc. reflexivity.
    + rewrite all_of_append, Hb. simpl. rewrite Hc. reflexivity.
Qed.

(** ** Texts without escapes *)

Lemma copied_plain (c : ascii) :
  ReadBack.copied c = true ->
  (c =? BACKSLASH)%char = false /\ (c =? DQUOTE)%char = false.
Proof.
  destruct c as [[] [] [] [] [] [] [] []]; intros H; vm_compute in H;
    try discriminate H; split; reflexivity.
Qed.

(** The characters that [EscapeString] copies are all but the eight of
    the table. *)
Lemma copied_all_but_eight (c : ascii) :
  ReadBack.copied c
  = negb (existsb (Ascii.eqb c)
            [BACKSLASH; "/"%char; DQUOTE; LF; TAB; BACKSPACE; FF; CR]).
Proof. destruct c as [[] [] [] [] [] [] [] []]; reflexivity. Qed.

Lemma EscapeString_copied (s : string) :
  Parser.all_of ReadBack.copied s = true -> EscapeString s = s.
Proof.
  induction s as [| c r IH]; simpl; intros H; [reflexivity |].
  apply andb_true_iff in H as [Hc Hr]. unfold ReadBack.copied in Hc.
  rewrite Hc, IH by exact Hr. reflexivity.
Qed.

Lemma UnescapeString_copied (s : string) :
  Parser.all_of ReadBack.copied s = true -> UnescapeString s = s.
Proof.
  induction s as [| c r IH]; intros H; [reflexivity |].
  simpl in H. apply andb_true_iff in H as [Hc Hr].
  destruct (copied_plain c Hc) as [Hb _].
  cbn [UnescapeString]. rewrite getUnescaped_only_slash, Hb. simpl.
  rewrite IH by exact Hr. reflexivity.
Qed.

Lemma closes_copied (s : string) :
  forall c1,
    (c1 =? BACKSLASH)%char = false ->
    Parser.all_of ReadBack.copied s = true ->
    ReadBack.closes c1 s = true.
Proof.
  induction s as [| c r IH]; intros c1 H1 H; simpl.
  - rewrite H1. reflexivity.
  - simpl in H. apply andb_true_iff in H as [Hc Hr].
    destruct (copied_plain c Hc) as [Hb Hq].
    rewrite Hq, andb_false_r. simpl. apply IH; assumption.
Qed.

(** ** The tokens of a compact text *)

Ltac list_norm :=
  repeat (first [ rewrite <- app_assoc
                | progress (cbn [app])
                | rewrite app_nil_r ]).

Lemma writeEntries_text (level : N) (it : string * Node)
      (its : list (string * Node)) (x : string) :
  WriterLoops.writeEntries ReadBack.compact level true (it :: its) ++ x
  = String DQUOTE
      (fst it ++
       String DQUOTE
         (String ":"
            (Writer.writeNode ReadBack.compact (snd it)
               (Writer.next_level level)
             ++ WriterLoops.writeEntries ReadBack.compact level false its
             ++ x))).
Proof.
  cbn [WriterLoops.writeEntries]. unfold str1.
  change (FormatInterpreter.GetIndentation ReadBack.compact
            (Writer.next_level level)) with EmptyString.
  change (FormatInterpreter.GetSpacing ReadBack.compact) with EmptyString.
  repeat (first [rewrite append_assoc | progress (cbn [append])]).
  reflexivity.
Qed.

Lemma writeEntries_more (level : N) (it : string * Node)
      (its : list (string * Node)) :
  WriterLoops.writeEntries ReadBack.compact level false (it :: its)
  = String ","
      (WriterLoops.writeEntries ReadBack.compact level true (it :: its)).
Proof. reflexivity. Qed.

Lemma writeElements_text (level : N) (value : Node) (its : list Node)
      (x : string) :
  WriterLoops.writeElements ReadBack.compact level true (value :: its) ++ x
  = Writer.writeNode ReadBack.compact value (Writer.next_level level)
    ++ WriterLoops.writeElements ReadBack.compact level false its ++ x.
Proof.
  cbn [WriterLoops.writeElements].
  change (FormatInterpreter.GetIndentation ReadBack.compact
            (Writer.next_level level)) with EmptyString.
  cbn [append]. repeat rewrite append_assoc. reflexivity.
Qed.

Lemma writeElements_more (level : N) (value : Node) (its : list Node) :
  WriterLoops.writeElements ReadBack.compact level false (value :: its)
  = String ","
      (WriterLoops.writeElements ReadBack.compact level true (value :: its)).
Proof. reflexivity. Qed.

Lemma tokenize_entries (its : list (string * Node)) :
  forall it level rest tk dt t0,
    ReadBack.closes NUL (fst it) = true ->
    ReadBack.tokenizes (snd it) ->
    Forall (fun it => ReadBack.closes NUL (fst it) = true
                      /\ ReadBack.tokenizes (snd it)) its ->
    Parser.tokenize_from
      (WriterLoops.writeEntries ReadBack.compact level true (it :: its)
       ++ String "}" rest)
      (Parser.mkTok tk dt t0 EmptyString)
    = Parser.tokenize_from rest
        (Parser.mkTok
           (tk ++ ReadBack.entries_tokens true (it :: its)
            ++ [Parser.T_OBJ_END])
           (dt ++ ReadBack.entries_data (it :: its))
           Parser.T_OBJ_END EmptyString).
Proof.
  induction its as [| it' its IH]; intros it level rest tk dt t0 Hname Hit Hits.
  - rewrite writeEntries_text, (tokenize_quoted _ _ _ _ _ Hname).
    rewrite (tokenize_structural ":" Parser.T_SEPARATOR_NAME) by reflexivity.
    cbn [WriterLoops.writeEntries append].
    rewrite (Hit _ "}"%char Parser.T_OBJ_END) by reflexivity.
    unfold ReadBack.entries_data.
    cbn [ReadBack.entries_tokens flat_map]. list_norm. reflexivity.
  - inversion Hits as [| ? ? [Hname' Hit'] Hits']; subst.
    rewrite writeEntries_text, (tokenize_quoted _ _ _ _ _ Hname).
    rewrite (tokenize_structural ":" Parser.T_SEPARATOR_NAME) by reflexivity.
    rewrite writeEntries_more. cbn [append].
    rewrite (Hit _ ","%char Parser.T_SEPARATOR_NODE) by reflexivity.
    rewrite (IH it' level rest _ _ _ Hname' Hit' Hits').
    unfold ReadBack.entries_data.
    cbn [ReadBack.entries_tokens flat_map]. list_norm. reflexivity.
Qed.

Lemma tokenize_elements (its : list Node) :
  forall value level rest tk dt t0,
    ReadBack.tokenizes value ->
    Forall ReadBack.tokenizes its ->
    Parser.tokenize_from
      (WriterLoops.writeElements ReadBack.compact level true (value :: its)
       ++ String "]" rest)
      (Parser.mkTok tk dt t0 EmptyString)
    = Parser.tokenize_from rest
        (Parser.mkTok
           (tk ++ ReadBack.elements_tokens true (value :: its)
            ++ [Parser.T_ARRAY_END])
           (dt ++ ReadBack.elements_data (value :: its))
           Parser.T_ARRAY_END EmptyString).
Proof.
  induction its as [| value' its IH];
    intros value level rest tk dt t0 Hvalue Hits.
  - rewrite writeElements_text. cbn [WriterLoops.writeElements append].
    rewrite (Hvalue _ "]"%char Parser.T_ARRAY_END) by reflexivity.
    unfold ReadBack.elements_data.
    cbn [ReadBack.elements_tokens flat_map]. list_norm. reflexivity.
  - inversion Hits as [| ? ? Hvalue' Hits']; subst.
    rewrite writeElements_text, writeElements_more. cbn [append].
    rewrite (Hvalue _ ","%char Parser.T_SEPARATOR_NODE) by reflexivity.
    rewrite (IH value' level rest _ _ _ Hvalue' Hits').
    unfold ReadBack.elements_data.
    cbn [ReadBack.elements_tokens flat_map]. list_norm. reflexivity.
Qed.

Lemma tokens_of_Object (children : list (string * Node)) :
  ReadBack.tokens_of (Object children)
  = Parser.T_OBJ_BEGIN
    :: ReadBack.entries_tokens true children ++ [Parser.T_OBJ_END].
Proof. reflexivity. Qed.

Lemma tokens_of_Array (children : list Node) :
  ReadBack.tokens_of (Array children)
  = Parser.T_ARRAY_BEGIN
    :: ReadBack.elements_tokens true children ++ [Parser.T_ARRAY_END].
Proof. reflexivity. Qed.

Lemma writeNode_Object_compact (children : list (string * Node)) (level : N)
      (x : string) :
  Writer.writeNode ReadBack.compact (Object children) level ++ x
  = String "{"
      (WriterLoops.writeEntries ReadBack.compact level true children
       ++ String "}" x).
Proof.
  rewrite writeNode_Object.
  change (FormatInterpreter.GetIndentation ReadBack.compact level)
    with EmptyString.
  change (FormatInterpreter.GetNewline ReadBack.compact) with EmptyString.
  repeat (first [rewrite append_assoc | progress (cbn [append])]).
  reflexivity.
Qed.

Lemma writeNode_Array_compact (children : list Node) (level : N)
      (x : string) :
  Writer.writeNode ReadBack.compact (Array children) level ++ x
  = String "["
      (WriterLoops.writeElements ReadBack.compact level true children
       ++ String "]" x).
Proof.
  rewrite writeNode_Array.
  change (FormatInterpreter.GetIndentation ReadBack.compact level)
    with EmptyString.
  change (FormatInterpreter.GetNewline ReadBack.compact) with EmptyString.
  repeat (first [rewrite append_assoc | progress (cbn [append])]).
  reflexivity.
Qed.

(** The text of an object, whatever follows it. *)
Lemma tokenize_Object (children : list (string * Node)) :
  Forall (fun it => ReadBack.closes NUL (fst it) = true
                    /\ ReadBack.tokenizes (snd it)) children ->
  forall level rest tk dt t0,
    Parser.tokenize_from
      (Writer.writeNode ReadBack.compact (Object children) level ++ rest)
      (Parser.mkTok tk dt t0 EmptyString)
    = Parser.tokenize_from rest
        (Parser.mkTok (tk ++ ReadBack.tokens_of (Object children))
           (dt ++ ReadBack.data_of (Object children))
           Parser.T_OBJ_END EmptyString).
Proof.
  intros Hits level rest tk dt t0.
  rewrite writeNode_Object_compact, tokens_of_Object.
  rewrite (tokenize_structural "{" Parser.T_OBJ_BEGIN) by reflexivity.
  destruct children as [| it its].
  - cbn [WriterLoops.writeEntries append].
    rewrite (tokenize_structural "}" Parser.T_OBJ_END) by reflexivity.
    cbn [ReadBack.entries_tokens ReadBack.data_of flat_map].
    list_norm. reflexivity.
  - inversion Hits as [| ? ? [Hname Hit] Hits']; subst.
    rewrite (tokenize_entries its it level rest _ _ _ Hname Hit Hits').
    list_norm. reflexivity.
Qed.

(** The text of an array, whatever follows it. *)
Lemma tokenize_Array (children : list Node) :
  Forall ReadBack.tokenizes children ->
  forall level rest tk dt t0,
    Parser.tokenize_from
      (Writer.writeNode ReadBack.compact (Array children) level ++ rest)
      (Parser.mkTok tk dt t0 EmptyString)
    = Parser.tokenize_from rest
        (Parser.mkTok (tk ++ ReadBack.tokens_of (Array children))
           (dt ++ ReadBack.data_of (Array children))
           Parser.T_ARRAY_END EmptyString).
Proof.
  intros Hits level rest tk dt t0.
  rewrite writeNode_Array_compact, tokens_of_Array.
  rewrite (tokenize_structural "[" Parser.T_ARRAY_BEGIN) by reflexivity.
  destruct children as [| value its].
  - cbn [WriterLoops.writeElements append].
    rewrite (tokenize_structural "]" Parser.T_ARRAY_END) by reflexivity.
    cbn [ReadBack.elements_tokens ReadBack.data_of flat_map].
    list_norm. reflexivity.
  - inversion Hits as [| ? ? Hvalue Hits']; subst.
    rewrite (tokenize_elements its value level rest _ _ _ Hvalue Hits').
    list_norm. reflexivity.
Qed.

Lemma readable_Object_children (P : Node -> Prop)
      (children : list (string * Node)) :
  Forall (fun it => ReadBack.readable (snd it) = true -> P (snd it))
         children ->
  ReadBack.readable (Object children) = true ->
  Forall (fun it => ReadBack.closes NUL (fst it) = true /\ P (snd it))
         children.
Proof.
  intros IH. cbn [ReadBack.readable].
  induction IH as [| it its Hit _ IHits]; intros H; constructor;
    cbn [forallb] in H; apply andb_true_iff in H as [H1 H2].
  - apply andb_true_iff in H1 as [Hname Hr]. split; auto.
  - apply IHits, H2.
Qed.

Lemma readable_Array_children (P : Node -> Prop) (children : list Node) :
  Forall (fun value => ReadBack.readable value = true -> P value) children ->
  ReadBack.readable (Array children) = true ->
  Forall P children.
Proof.
  intros IH. cbn [ReadBack.readable].
  induction IH as [| value its Hvalue _ IHits]; intros H; constructor;
    cbn [forallb] in H; apply andb_true_iff in H as [H1 H2]; auto.
Qed.

(** The tokenizer reads the compact text of a readable tree as the
    tokens and data of the tree. *)
Lemma readable_tokenizes (n : Node) :
  ReadBack.readable n = true -> ReadBack.tokenizes n.
Proof.
  induction n as [type s | children IH | children IH]
    using Node_children_ind; intros Hn.
  - intros level c t rest tk dt t0 Hc.
    pose proof (closer_structural c t Hc) as Hst.
    destruct type; try discriminate Hn.
    + cbn [ReadBack.readable] in Hn.
      cbn [Writer.writeNode Writer.writeValue IsNull IsString ValueType_eqb].
      rewrite (EscapeString_copied s Hn).
      unfold str1. cbn [append]. rewrite append_assoc. cbn [append].
      rewrite tokenize_quoted
        by (apply closes_copied; [reflexivity | exact Hn]).
      rewrite (tokenize_structural c t) by exact Hst.
      cbn [ReadBack.tokens_of ReadBack.data_of]. list_norm. reflexivity.
    + cbn [ReadBack.readable] in Hn.
      apply andb_true_iff in Hn as [Hne Hnum].
      apply negb_true_iff in Hne.
      cbn [Writer.writeNode Writer.writeValue IsNull IsString ValueType_eqb].
      rewrite (tokenize_digits s EmptyString) by (reflexivity || assumption).
      cbn [append].
      rewrite (tokenize_structural_number c t) by assumption.
      cbn [ReadBack.tokens_of ReadBack.data_of]. list_norm. reflexivity.
  - pose proof (readable_Object_children _ _ IH Hn) as Hits.
    intros level c t rest tk dt t0 Hc.
    rewrite (tokenize_Object children Hits).
    rewrite (tokenize_structural c t) by (apply closer_structural, Hc).
    list_norm. reflexivity.
  - pose proof (readable_Array_children _ _ IH Hn) as Hits.
    intros level c t rest tk dt t0 Hc.
    rewrite (tokenize_Array children Hits).
    rewrite (tokenize_structural c t) by (apply closer_structural, Hc).
    list_norm. reflexivity.
Qed.

Lemma tokenize_is_tokenize_from (json : string) :
  Parser.tokenize json = Parser.tokenize_from json Parser.tokenize_init.
Proof. reflexivity. Qed.

(** The queues after [tokenize] of the compact text of a readable tree. *)
Lemma tokenize_readable (n : Node) :
  ReadBack.readable n = true ->
  Parser.tokens (Parser.tokenize (Writer.Write n NoFormat))
  = ReadBack.tokens_of n
  /\ Parser.data (Parser.tokenize (Writer.Write n NoFormat))
     = ReadBack.data_of n.
Proof.
  intros Hn. rewrite tokenize_is_tokenize_from.
  unfold Writer.Write, Parser.tokenize_init.
  change (FormatInterpreter.SetFormat NoFormat) with ReadBack.compact.
  destruct n as [type s | children | children].
  - destruct type; try discriminate Hn; cbn [ReadBack.readable] in Hn.
    + cbn [Writer.writeNode Writer.writeValue IsNull IsString ValueType_eqb].
      rewrite (EscapeString_copied s Hn). unfold str1. cbn [append].
      rewrite tokenize_quoted
        by (apply closes_copied; [reflexivity | exact Hn]).
      rewrite tokenize_from_nil. split; reflexivity.
    + apply andb_true_iff in Hn as [Hne Hnum].
      apply negb_true_iff in Hne.
      cbn [Writer.writeNode Writer.writeValue IsNull IsString ValueType_eqb].
      rewrite tokenize_digits_last by (reflexivity || assumption).
      split; reflexivity.
  - rewrite <- (append_nil_r (Writer.writeNode _ _ _)).
    rewrite tokenize_Object, tokenize_from_nil; [split; reflexivity |].
    apply (readable_Object_children _ _
             (proj2 (Forall_forall _ _)
                    (fun it _ => readable_tokenizes (snd it))) Hn).
  - rewrite <- (append_nil_r (Writer.writeNode _ _ _)).
    rewrite tokenize_Array, tokenize_from_nil; [split; reflexivity |].
    apply (readable_Array_children _ _
             (proj2 (Forall_forall _ _)
                    (fun value _ => readable_tokenizes value)) Hn).
Qed.

(** ** The tree of a stream of tokens *)

Lemma assemble_name (rest : list Parser.Token) (st : Parser.Asm) :
  Parser.assemble (Parser.T_VALUE :: Parser.T_SEPARATOR_NAME :: rest) st
  = Parser.andThen (Parser.case_name st) (Parser.assemble rest).
Proof. reflexivity. Qed.

Lemma assemble_value (rest : list Parser.Token) (st : Parser.Asm) :
  ReadBack.no_name_follows rest = true ->
  Parser.assemble (Parser.T_VALUE :: rest) st
  = Parser.andThen (Parser.case_value st) (Parser.assemble rest).
Proof. destruct rest as [| [] rest]; try reflexivity; discriminate. Qed.

Lemma case_name_top (own : bool) (fn : string)
      (below : list (string * Parser.NodePtr)) (c r : Node)
      (nm k : string) (d : list Parser.Datum) :
  Parser.case_name
    (ReadBack.top_holds own fn below c r nm ((VT_STRING, k) :: d))
  = Parser.Success (ReadBack.top_holds own fn below c r k d).
Proof. destruct own; reflexivity. Qed.

Lemma add_to_top_holds (own : bool) (fn : string)
      (below : list (string * Parser.NodePtr)) (c r c' : Node)
      (nm k : string) (d : list Parser.Datum) (node : Node) :
  ReadBack.add_child c k node = Some c' ->
  Parser.add_to_top (ReadBack.top_holds own fn below c r nm d) k node
  = Some (ReadBack.top_holds own fn below c' r nm d).
Proof.
  destruct own, c; simpl; intros H; try discriminate;
    injection H as <-; reflexivity.
Qed.

Arguments Parser.add_to_top : simpl never.

Ltac asm_simpl :=
  unfold Parser.set_data, Parser.set_name, Parser.set_stack,
    Parser.set_root in *;
  simpl in *.

Lemma case_value_top (own : bool) (fn : string)
      (below : list (string * Parser.NodePtr)) (c r c' : Node)
      (nm : string) (d0 : Parser.Datum) (d : list Parser.Datum) :
  ReadBack.add_child c nm (Parser.value_of d0) = Some c' ->
  Parser.case_value (ReadBack.top_holds own fn below c r nm (d0 :: d))
  = Parser.Success (ReadBack.top_holds own fn below c' r EmptyString d).
Proof.
  intros H.
  pose proof (add_to_top_holds own fn below c r c' nm nm d _ H) as Hadd.
  unfold Parser.case_value.
  destruct own; asm_simpl; rewrite Hadd; reflexivity.
Qed.

Lemma case_begin_top (kind : Type_) (own : bool) (fn : string)
      (below : list (string * Parser.NodePtr)) (c r : Node)
      (nm : string) (d : list Parser.Datum) :
  Parser.case_begin kind (ReadBack.top_holds own fn below c r nm d)
  = Parser.Success
      (ReadBack.top_holds true nm
         (Parser.nodeStack (ReadBack.top_holds own fn below c r nm d))
         (match kind with T_OBJECT => Object [] | _ => Array [] end)
         (Parser.root (ReadBack.top_holds own fn below c r nm d))
         EmptyString d).
Proof. destruct own, kind; reflexivity. Qed.

Lemma case_end_top (token : Parser.Token) (own : bool) (fn : string)
      (below : list (string * Parser.NodePtr)) (c r c' node : Node)
      (nm nm0 : string) (d0 d : list Parser.Datum) :
  ReadBack.add_child c nm node = Some c' ->
  (token = Parser.T_OBJ_END /\ IsObject node = true)
  \/ (token = Parser.T_ARRAY_END /\ IsArray node = true) ->
  Parser.case_end token
    (ReadBack.top_holds true nm
       (Parser.nodeStack (ReadBack.top_holds own fn below c r nm0 d0))
       node
       (Parser.root (ReadBack.top_holds own fn below c r nm0 d0))
       EmptyString d)
  = Parser.Success (ReadBack.top_holds own fn below c' r EmptyString d).
Proof.
  intros H Hkind.
  pose proof (add_to_top_holds own fn below c r c' EmptyString nm d _ H)
    as Hadd.
  unfold Parser.case_end.
  destruct Hkind as [[-> Hk] | [-> Hk]];
    destruct own; asm_simpl; rewrite Hk; asm_simpl; rewrite Hadd;
    reflexivity.
Qed.

Arguments Parser.assemble : simpl never.

Lemma assemble_entries (its : list (string * Node)) :
  forall begin acc own fn below r rest drest,
    Forall (fun it => ReadBack.attaches (snd it)) its ->
    Parser.assemble
      (ReadBack.entries_tokens begin its ++ Parser.T_OBJ_END :: rest)
      (ReadBack.top_holds own fn below (Object acc) r EmptyString
         (ReadBack.entries_data its ++ drest))
    = Parser.assemble (Parser.T_OBJ_END :: rest)
        (ReadBack.top_holds own fn below (Object (acc ++ its)) r
           EmptyString drest).
Proof.
  induction its as [| [k v] its IH];
    intros begin acc own fn below r rest drest Hits.
  - rewrite app_nil_r. reflexivity.
  - inversion Hits as [| ? ? Hit Hits']; subst. cbn [snd] in Hit.
    unfold ReadBack.entries_data.
    cbn [ReadBack.entries_tokens flat_map fst snd]. list_norm.
    assert (Hskip :
              forall x st,
                Parser.assemble
                  ((if begin then [] else [Parser.T_SEPARATOR_NODE]) ++ x) st
                = Parser.assemble x st)
      by (intros; destruct begin; reflexivity).
    rewrite Hskip, assemble_name, case_name_top. cbn [Parser.andThen].
    rewrite (Hit _ _ own fn below (Object acc) r k
               (Object (acc ++ [(k, v)])))
      by (destruct its; reflexivity).
    rewrite (IH false (acc ++ [(k, v)])%list) by exact Hits'.
    list_norm. reflexivity.
Qed.

Lemma assemble_elements (its : list Node) :
  forall begin acc own fn below r rest drest,
    Forall ReadBack.attaches its ->
    Parser.assemble
      (ReadBack.elements_tokens begin its ++ Parser.T_ARRAY_END :: rest)
      (ReadBack.top_holds own fn below (Array acc) r EmptyString
         (ReadBack.elements_data its ++ drest))
    = Parser.assemble (Parser.T_ARRAY_END :: rest)
        (ReadBack.top_holds own fn below (Array (acc ++ its)) r
           EmptyString drest).
Proof.
  induction its as [| v its IH];
    intros begin acc own fn below r rest drest Hits.
  - rewrite app_nil_r. reflexivity.
  - inversion Hits as [| ? ? Hit Hits']; subst.
    unfold ReadBack.elements_data.
    cbn [ReadBack.elements_tokens flat_map]. list_norm.
    assert (Hskip :
              forall x st,
                Parser.assemble
                  ((if begin then [] else [Parser.T_SEPARATOR_NODE]) ++ x) st
                = Parser.assemble x st)
      by (intros; destruct begin; reflexivity).
    rewrite Hskip.
    rewrite (Hit _ _ own fn below (Array acc) r EmptyString
               (Array (acc ++ [v])))
      by (destruct its; reflexivity).
    rewrite (IH false (acc ++ [v])%list) by exact Hits'.
    list_norm. reflexivity.
Qed.

Lemma value_of_readable (type : ValueType) (s : string) :
  ReadBack.readable (Value type s) = true ->
  Parser.value_of (type, s) = Value type s.
Proof.
  destruct type; intros H; try discriminate H; [| reflexivity].
  unfold Parser.value_of, Set_string. cbn [fst snd ValueType_eqb].
  rewrite (UnescapeString_copied s H). reflexivity.
Qed.

(** The assembler adds the tree of a readable tree's tokens to the
    container on top of the stack. *)
Lemma readable_attaches (n : Node) :
  ReadBack.readable n = true -> ReadBack.attaches n.
Proof.
  induction n as [type s | children IH | children IH]
    using Node_children_ind; intros Hn.
  - intros rest drest own fn below c r nm c' Hrest Hadd.
    cbn [ReadBack.tokens_of ReadBack.data_of app].
    rewrite (assemble_value _ _ Hrest).
    rewrite (case_value_top own fn below c r c')
      by (rewrite (value_of_readable _ _ Hn); exact Hadd).
    reflexivity.
  - pose proof (readable_Object_children _ _ IH Hn) as Hits.
    assert (Hatt : Forall (fun it => ReadBack.attaches (snd it)) children)
      by (eapply Forall_impl; [| exact Hits]; intros it [_ H]; exact H).
    intros rest drest own fn below c r nm c' Hrest Hadd.
    rewrite tokens_of_Object.
    change (ReadBack.data_of (Object children))
      with (ReadBack.entries_data children).
    list_norm.
    change (Parser.assemble (Parser.T_OBJ_BEGIN :: ?x) ?st)
      with (Parser.andThen (Parser.case_begin T_OBJECT st)
              (Parser.assemble x)).
    rewrite case_begin_top. cbn [Parser.andThen].
    rewrite (assemble_entries children true []) by exact Hatt.
    cbn [app].
    change (Parser.assemble (Parser.T_OBJ_END :: ?x) ?st)
      with (Parser.andThen (Parser.case_end Parser.T_OBJ_END st)
              (Parser.assemble x)).
    rewrite (case_end_top Parser.T_OBJ_END own fn below c r c')
      by (try exact Hadd; left; split; reflexivity).
    reflexivity.
  - pose proof (readable_Array_children _ _ IH Hn) as Hatt.
    intros rest drest own fn below c r nm c' Hrest Hadd.
    rewrite tokens_of_Array.
    change (ReadBack.data_of (Array children))
      with (ReadBack.elements_data children).
    list_norm.
    change (Parser.assemble (Parser.T_ARRAY_BEGIN :: ?x) ?st)
      with (Parser.andThen (Parser.case_begin T_ARRAY st)
              (Parser.assemble x)).
    rewrite case_begin_top. cbn [Parser.andThen].
    rewrite (assemble_elements children true []) by exact Hatt.
    cbn [app].
    change (Parser.assemble (Parser.T_ARRAY_END :: ?x) ?st)
      with (Parser.andThen (Parser.case_end Parser.T_ARRAY_END st)
              (Parser.assemble x)).
    rewrite (case_end_top Parser.T_ARRAY_END own fn below c r c')
      by (try exact Hadd; right; split; reflexivity).
    reflexivity.
Qed.

(** From the tokens and data of a readable tree and a fresh root,
    [assemble] returns [true] and the root is the tree. *)
Lemma assemble_readable (n : Node) :
  ReadBack.readable n = true ->
  Parser.assemble (ReadBack.tokens_of n)
    (Parser.mkAsm [] EmptyString (ReadBack.data_of n) (ReadBack.fresh n))
  = Parser.Success
      (Parser.mkAsm (ReadBack.final_stack n) EmptyString [] n).
Proof.
  intros Hn.
  destruct n as [type s | children | children].
  - cbn [ReadBack.tokens_of ReadBack.data_of ReadBack.fresh
         ReadBack.final_stack].
    rewrite assemble_value by reflexivity.
    unfold Parser.case_value. asm_simpl.
    rewrite (value_of_readable _ _ Hn). reflexivity.
  - pose proof (readable_Object_children _ _
                  (proj2 (Forall_forall _ _)
                         (fun it _ => readable_attaches (snd it))) Hn)
      as Hits.
    assert (Hatt : Forall (fun it => ReadBack.attaches (snd it)) children)
      by (eapply Forall_impl; [| exact Hits]; intros it [_ H]; exact H).
    rewrite tokens_of_Object.
    change (ReadBack.data_of (Object children))
      with (ReadBack.entries_data children).
    change (Parser.assemble (Parser.T_OBJ_BEGIN :: ?x) ?st)
      with (Parser.andThen (Parser.case_begin T_OBJECT st)
              (Parser.assemble x)).
    cbn [ReadBack.fresh ReadBack.final_stack].
    change (Parser.case_begin T_OBJECT
              (Parser.mkAsm [] EmptyString (ReadBack.entries_data children)
                 (Object [])))
      with (Parser.Success
              (ReadBack.top_holds false EmptyString [] (Object [])
                 (Object []) EmptyString (ReadBack.entries_data children))).
    cbn [Parser.andThen].
    rewrite <- (app_nil_r (ReadBack.entries_data children)).
    rewrite (assemble_entries children true []) by exact Hatt.
    reflexivity.
  - pose proof (readable_Array_children _ _
                  (proj2 (Forall_forall _ _)
                         (fun value _ => readable_attaches value)) Hn)
      as Hatt.
    rewrite tokens_of_Array.
    change (ReadBack.data_of (Array children))
      with (ReadBack.elements_data children).
    change (Parser.assemble (Parser.T_ARRAY_BEGIN :: ?x) ?st)
      with (Parser.andThen (Parser.case_begin T_ARRAY st)
              (Parser.assemble x)).
    cbn [ReadBack.fresh ReadBack.final_stack].
    change (Parser.case_begin T_ARRAY
              (Parser.mkAsm [] EmptyString (ReadBack.elements_data children)
                 (Array [])))
      with (Parser.Success
              (ReadBack.top_holds false EmptyString [] (Array [])
                 (Array []) EmptyString (ReadBack.elements_data children))).
    cbn [Parser.andThen].
    rewrite <- (app_nil_r (ReadBack.elements_data children)).
    rewrite (assemble_elements children true []) by exact Hatt.
    reflexivity.
Qed.

(** ** Round trip *)

(** C1, as the claim states it, fails: the object built by [Add] of the
    number [1] under a name with a quote in it is written with the name
    as it is, [Parse] of that text into a fresh object returns [false],
    and what it leaves in the root is written differently. *)
Lemma round_trip_fails_on_quote_in_name :
  ReadBack.readable tree_quote_in_name = false
  /\ Parser.succeeded
       (Parser.Parse (ReadBack.fresh tree_quote_in_name)
          (Writer.Write tree_quote_in_name NoFormat)) = false
  /\ (forall root',
         Parser.root_after
           (Parser.Parse (ReadBack.fresh tree_quote_in_name)
              (Writer.Write tree_quote_in_name NoFormat)) = Some root' ->
         Writer.Write root' NoFormat
         <> Writer.Write tree_quote_in_name NoFormat).
Proof.
  split; [reflexivity |]. split; [vm_compute; reflexivity |].
  intros root' H. vm_compute in H. injection H as <-.
  vm_compute. discriminate.
Qed.

(** C1, amended.  For a tree whose leaves are numbers with a text that is
    not empty and has only digits, dots and minus signs, or strings
    without any of the eight characters that [EscapeString] replaces, and
    in whose object names every quote comes right after a backslash and
    which do not end in a backslash: [Parse] of the compact text into a
    fresh root of the tree's kind returns [true], the root is then the
    tree itself, and writing it again gives the same text. *)
Theorem readable_round_trip (n : Node)
  (Hn : ReadBack.readable n = true) :
  exists st,
    Parser.Parse (ReadBack.fresh n) (Writer.Write n NoFormat)
    = Parser.Success st
    /\ Parser.root st = n
    /\ Writer.Write (Parser.root st) NoFormat = Writer.Write n NoFormat.
Proof.
  exists (Parser.mkAsm (ReadBack.final_stack n) EmptyString [] n).
  split; [| split; reflexivity].
  unfold Parser.Parse. cbv zeta.
  destruct (tokenize_readable n Hn) as [-> ->].
  apply assemble_readable, Hn.
Qed.

Lemma readable_round_trip_witness :
  ReadBack.readable tree_sample = true
  /\ exists st,
      Parser.Parse (ReadBack.fresh tree_sample)
        (Writer.Write tree_sample NoFormat) = Parser.Success st
      /\ Parser.root st = tree_sample
      /\ Writer.Write (Parser.root st) NoFormat
         = Writer.Write tree_sample NoFormat.
Proof.
  split; [reflexivity |].
  apply (readable_round_trip tree_sample). reflexivity.
Defined.

(** * Further properties *)

(** ** Kinds *)

Lemma find_if_found (p : ascii -> bool) (json : string) :
  match find_if p json with
  | String c _ => p c = true
  | EmptyString => True
  end.
Proof.
  induction json as [| c r IH]; simpl; [exact I |].
  destruct (p c) eqn:Hc; [exact Hc | exact IH].
Qed.

(** X1.  [Node::DetermineType] answers [T_VALUE] for every text: it
    looks at the first white space character of the text, which is
    neither an opening brace nor an opening bracket, or finds none. *)
Theorem DetermineType_is_always_value (json : string) :
  DetermineType json = T_VALUE.
Proof.
  unfold DetermineType.
  pose proof (find_if_found Parser.IsWhitespace json) as H.
  destruct (find_if Parser.IsWhitespace json) as [| c r]; [reflexivity |].
  destruct (Ascii.eqb_spec c "{") as [-> | _]; [discriminate H |].
  destruct (Ascii.eqb_spec c "[") as [-> | _]; [discriminate H |].
  reflexivity.
Qed.

(** On every node exactly one of [AsObject], [AsArray] and [AsValue]
    returns, and it returns the node; the other two throw
    [TypeException]. *)
Lemma narrowing_accessors_one_returns (n : Node) :
  match GetType n with
  | T_OBJECT =>
      AsObject n = Returns n /\ AsArray n = Throws TypeException
      /\ AsValue n = Throws TypeException
  | T_ARRAY =>
      AsObject n = Throws TypeException /\ AsArray n = Returns n
      /\ AsValue n = Throws TypeException
  | T_VALUE =>
      AsObject n = Throws TypeException /\ AsArray n = Throws TypeException
      /\ AsValue n = Returns n
  end.
Proof. destruct n; repeat apply conj; reflexivity. Qed.

(** ** Escaping, in general *)

Lemma escaped_cases (c : ascii) :
  ReadBack.copied c = true
  \/ c = BACKSLASH \/ c = "/"%char \/ c = DQUOTE \/ c = LF \/ c = TAB
  \/ c = BACKSPACE \/ c = FF \/ c = CR.
Proof.
  destruct c as [[] [] [] [] [] [] [] []];
    repeat (first [reflexivity | left; reflexivity | right]).
Qed.

Ltac by_escaped_cases c :=
  destruct (escaped_cases c)
    as [? | [-> | [-> | [-> | [-> | [-> | [-> | [-> | ->]]]]]]]].

Lemma EscapeString_copied_char (c : ascii) (r : string) :
  ReadBack.copied c = true ->
  EscapeString (String c r) = String c (EscapeString r).
Proof.
  intros H. unfold ReadBack.copied in H. cbn [EscapeString].
  rewrite H. reflexivity.
Qed.

Lemma copied_not_backslash (c : ascii) :
  ReadBack.copied c = true -> c <> BACKSLASH.
Proof. intros H ->. discriminate H. Qed.

Lemma EscapeString_table_chars (r : string) :
  EscapeString (String BACKSLASH r)
  = String BACKSLASH (String BACKSLASH (EscapeString r))
  /\ EscapeString (String "/" r)
     = String BACKSLASH (String "/" (EscapeString r))
  /\ EscapeString (String DQUOTE r)
     = String BACKSLASH (String DQUOTE (EscapeString r))
  /\ EscapeString (String LF r)
     = String BACKSLASH (String "n" (EscapeString r))
  /\ EscapeString (String TAB r)
     = String BACKSLASH (String "t" (EscapeString r))
  /\ EscapeString (String BACKSPACE r)
     = String BACKSLASH (String "b" (EscapeString r))
  /\ EscapeString (String FF r)
     = String BACKSLASH (String "f" (EscapeString r))
  /\ EscapeString (String CR r)
     = String BACKSLASH (String "r" (EscapeString r)).
Proof. repeat apply conj; reflexivity. Qed.

Ltac escape_table_in H r :=
  let E := fresh "E" in
  pose proof (EscapeString_table_chars r) as E;
  destruct E as (?E & ?E & ?E & ?E & ?E & ?E & ?E & ?E);
  repeat match goal with
         | Eq : EscapeString (String _ r) = _ |- _ =>
             try rewrite Eq in H; clear Eq
         end.

(** X3.  [EscapeString] loses nothing: two texts with the same escaped
    text are the same text. *)
Theorem EscapeString_injective (a : string) :
  forall b, EscapeString a = EscapeString b -> a = b.
Proof.
  induction a as [| c r IH]; intros [| c' r'] H.
  - reflexivity.
  - exfalso. by_escaped_cases c';
      [rewrite EscapeString_copied_char in H by assumption |..];
      discriminate H.
  - exfalso. by_escaped_cases c;
      [rewrite EscapeString_copied_char in H by assumption |..];
      discriminate H.
  - by_escaped_cases c; by_escaped_cases c';
      repeat match goal with
             | Hc : ReadBack.copied _ = true |- _ =>
                 rewrite (EscapeString_copied_char _ _ Hc) in H;
                 pose proof (copied_not_backslash _ Hc) as ?Hnb; clear Hc
             end;
      escape_table_in H r; escape_table_in H r';
      try discriminate H;
      try (injection H as Ha Hb; congruence);
      try (injection H as Hb; f_equal; apply IH; exact Hb);
      try (injection H as Ha Hb; f_equal; [exact Ha | apply IH; exact Hb]).
Qed.

Lemma EscapeString_injective_witness :
  EscapeString ("a/" ++ str1 LF) = EscapeString ("a/" ++ str1 LF)
  /\ "a/" ++ str1 LF = "a/" ++ str1 LF.
Proof.
  split; [reflexivity |].
  apply (EscapeString_injective ("a/" ++ str1 LF) ("a/" ++ str1 LF)).
  reflexivity.
Defined.

Lemma UnescapeString_pair (r : string) :
  UnescapeString (String BACKSLASH (String "/" r))
  = String BACKSLASH (UnescapeString r).
Proof. reflexivity. Qed.

Lemma UnescapeString_copy (c : ascii) (r : string) :
  (c =? BACKSLASH)%char
  && match r with
     | String c2 _ => (c2 =? "/")%char
     | EmptyString => false
     end = false ->
  UnescapeString (String c r) = String c (UnescapeString r).
Proof.
  intros H. cbn [UnescapeString]. rewrite getUnescaped_only_slash.
  destruct r as [| c2 r']; [rewrite andb_false_r; reflexivity |].
  rewrite H. reflexivity.
Qed.

Lemma UnescapeString_other (c : ascii) (r : string) :
  (c =? BACKSLASH)%char = false ->
  UnescapeString (String c r) = String c (UnescapeString r).
Proof. intros H. apply UnescapeString_copy. rewrite H. reflexivity. Qed.

Lemma copied_not_slash (c : ascii) :
  ReadBack.copied c = true -> (c =? "/")%char = false.
Proof.
  intros H. destruct (Ascii.eqb_spec c "/") as [-> |]; [discriminate H |].
  reflexivity.
Qed.

(** An escaped text does not begin with a slash. *)
Lemma EscapeString_head (r : string) :
  match EscapeString r with
  | String c2 _ => (c2 =? "/")%char
  | EmptyString => false
  end = false.
Proof.
  destruct r as [| c r]; [reflexivity |].
  by_escaped_cases c.
  - rewrite EscapeString_copied_char by assumption.
    apply copied_not_slash. assumption.
  - reflexivity.
  - reflexivity.
  - reflexivity.
  - reflexivity.
  - reflexivity.
  - reflexivity.
  - reflexivity.
  - reflexivity.
Qed.

(** [UnescapeString] after [EscapeString], character by character. *)
Lemma Unescape_Escape_cons (c : ascii) (r : string) :
  UnescapeString (EscapeString (String c r))
  = UnescapeString (EscapeString (str1 c))
    ++ UnescapeString (EscapeString r).
Proof.
  by_escaped_cases c.
  - unfold str1. rewrite !EscapeString_copied_char by assumption.
    destruct (copied_plain c H) as [Hb _].
    rewrite !UnescapeString_other by exact Hb. reflexivity.
  - destruct (EscapeString_table_chars r) as (-> & _).
    rewrite UnescapeString_copy by reflexivity.
    rewrite UnescapeString_copy
      by (rewrite EscapeString_head; reflexivity).
    reflexivity.
  - destruct (EscapeString_table_chars r) as (_ & -> & _).
    rewrite UnescapeString_pair. reflexivity.
  - destruct (EscapeString_table_chars r) as (_ & _ & -> & _).
    rewrite UnescapeString_copy by reflexivity.
    rewrite UnescapeString_other by reflexivity. reflexivity.
  - destruct (EscapeString_table_chars r) as (_ & _ & _ & -> & _).
    rewrite UnescapeString_copy by reflexivity.
    rewrite UnescapeString_other by reflexivity. reflexivity.
  - destruct (EscapeString_table_chars r) as (_ & _ & _ & _ & -> & _).
    rewrite UnescapeString_copy by reflexivity.
    rewrite UnescapeString_other by reflexivity. reflexivity.
  - destruct (EscapeString_table_chars r) as (_ & _ & _ & _ & _ & -> & _).
    rewrite UnescapeString_copy by reflexivity.
    rewrite UnescapeString_other by reflexivity. reflexivity.
  - destruct (EscapeString_table_chars r)
      as (_ & _ & _ & _ & _ & _ & -> & _).
    rewrite UnescapeString_copy by reflexivity.
    rewrite UnescapeString_other by reflexivity. reflexivity.
  - destruct (EscapeString_table_chars r)
      as (_ & _ & _ & _ & _ & _ & _ & ->).
    rewrite UnescapeString_copy by reflexivity.
    rewrite UnescapeString_other by reflexivity. reflexivity.
Qed.

Lemma length_append (a b : string) :
  String.length (a ++ b) = (String.length a + String.length b)%nat.
Proof. induction a as [| c a IH]; simpl; [| rewrite IH]; reflexivity. Qed.

Lemma Unescape_Escape_char_length (c : ascii) :
  (1 <= String.length (UnescapeString (EscapeString (str1 c))))%nat.
Proof.
  by_escaped_cases c; try (vm_compute; lia).
  unfold str1. rewrite EscapeString_copied_char by assumption.
  destruct (copied_plain c H) as [Hb _].
  rewrite UnescapeString_other by exact Hb. simpl. lia.
Qed.

Lemma Unescape_Escape_length (s : string) :
  (String.length s
   <= String.length (UnescapeString (EscapeString s)))%nat.
Proof.
  induction s as [| c r IH]; [simpl; lia |].
  rewrite Unescape_Escape_cons, length_append.
  pose proof (Unescape_Escape_char_length c).
  change (String.length (String c r)) with (S (String.length r)). lia.
Qed.

(** X4.  [UnescapeString] gives back the text that [EscapeString] was
    given exactly for the texts without any of the eight characters of
    the table. *)
Theorem Unescape_Escape_identity_iff (s : string) :
  UnescapeString (EscapeString s) = s
  <-> Parser.all_of ReadBack.copied s = true.
Proof.
  split.
  - induction s as [| c r IH]; intros H; [reflexivity |].
    rewrite Unescape_Escape_cons in H.
    by_escaped_cases c.
    + unfold str1 in H. rewrite EscapeString_copied_char in H by assumption.
      destruct (copied_plain c H0) as [Hb _].
      rewrite UnescapeString_other in H by exact Hb.
      injection H as H. simpl. rewrite H0. apply IH, H.
    + exfalso. change (UnescapeString (EscapeString (str1 BACKSLASH)))
        with (String BACKSLASH (str1 BACKSLASH)) in H.
      injection H as H.
      pose proof (Unescape_Escape_length r) as Hlen.
      rewrite <- H in Hlen at 1. simpl in Hlen. lia.
    + discriminate H.
    + discriminate H.
    + discriminate H.
    + discriminate H.
    + discriminate H.
    + discriminate H.
    + discriminate H.
  - intros H. rewrite (EscapeString_copied s H).
    apply UnescapeString_copied, H.
Qed.

Lemma UnescapeString_length_bound (n : nat) :
  forall s,
    (String.length s <= n)%nat ->
    (String.length (UnescapeString s) <= String.length s)%nat
    /\ (Lexical.has_escaped_slash s = true ->
        (String.length (UnescapeString s) < String.length s)%nat).
Proof.
  induction n as [| n IH]; intros s Hn.
  - destruct s; [| simpl in Hn; lia].
    split; [simpl; lia | discriminate].
  - destruct s as [| c r]; [split; [simpl; lia | discriminate] |].
    simpl in Hn. cbn [Lexical.has_escaped_slash].
    destruct ((c =? BACKSLASH)%char
              && match r with
                 | String c2 _ => (c2 =? "/")%char
                 | EmptyString => false
                 end) eqn:Hcond.
    + destruct r as [| c2 r']; [rewrite andb_false_r in Hcond; discriminate |].
      apply andb_true_iff in Hcond as [Hc Hc2].
      apply Ascii.eqb_eq in Hc, Hc2. subst c c2.
      rewrite UnescapeString_pair.
      destruct (IH r') as [Hle _]; [simpl in Hn; lia |].
      simpl. split; [lia | intros _; lia].
    + rewrite UnescapeString_copy by exact Hcond.
      destruct (IH r) as [Hle Hlt]; [lia |].
      cbn [String.length orb]. split; [lia |].
      intros H. specialize (Hlt H). lia.
Qed.

Lemma UnescapeString_no_escaped_slash (s : string) :
  Lexical.has_escaped_slash s = false -> UnescapeString s = s.
Proof.
  induction s as [| c r IH]; intros H; [reflexivity |].
  cbn [Lexical.has_escaped_slash] in H.
  apply orb_false_iff in H as [Hcond Hr].
  rewrite UnescapeString_copy by exact Hcond.
  rewrite IH by exact Hr. reflexivity.
Qed.

(** X5.  [UnescapeString] never makes a text longer, and it changes a
    text exactly when a backslash is followed by a slash somewhere in
    it. *)
Theorem UnescapeString_changes_iff_escaped_slash (s : string) :
  (String.length (UnescapeString s) <= String.length s)%nat
  /\ (UnescapeString s = s <-> Lexical.has_escaped_slash s = false).
Proof.
  destruct (UnescapeString_length_bound (String.length s) s (le_n _))
    as [Hle Hlt].
  split; [exact Hle |]. split.
  - intros H. destruct (Lexical.has_escaped_slash s); [| reflexivity].
    specialize (Hlt eq_refl). rewrite H in Hlt. lia.
  - apply UnescapeString_no_escaped_slash.
Qed.

(** ** Objects and arrays, in general *)

(** X6.  [Has] and [Get] of an object agree: when [Has] says yes, [Get]
    returns an entry of that name that is among the children, and when it
    says no, [Get] throws [NotFoundException]. *)
Theorem Object_Has_Get_agree (children : Obj.ChildList) (name : string) :
  if Obj.Has children name
  then exists node,
      Obj.Get children name = Returns node /\ In (name, node) children
  else Obj.Get children name = Throws NotFoundException.
Proof.
  induction children as [| [k v] children IH]; [reflexivity |].
  simpl. destruct (String.eqb_spec k name) as [-> | Hk]; simpl.
  - exists v. split; [reflexivity | left; reflexivity].
  - destruct (Obj.Has children name).
    + destruct IH as [node [Hget Hin]]. exists node.
      split; [exact Hget | right; exact Hin].
    + exact IH.
Qed.

Lemma Obj_Has_app (a b : Obj.ChildList) (name : string) :
  Obj.Has (a ++ b)%list name = Obj.Has a name || Obj.Has b name.
Proof. unfold Obj.Has. apply existsb_app. Qed.

(** X7.  After [Add] of a node under [name], [Get] of a name that the
    object had before returns what it returned before, also when the name
    is [name]; [Get] of [name] returns the new node only if the object
    did not have the name; every other name is still missing. *)
Theorem Object_Get_after_Add (children : Obj.ChildList)
        (name name' : string) (node : Node) :
  Obj.Get (Obj.Add children name node) name'
  = if Obj.Has children name' then Obj.Get children name'
    else if name =? name' then Returns node
         else Throws NotFoundException.
Proof.
  unfold Obj.Add, GetCopy.
  induction children as [| [k v] children IH]; simpl.
  - destruct (name =? name'); reflexivity.
  - destruct (k =? name'); simpl; [reflexivity | exact IH].
Qed.

Lemma Obj_Remove_length (children : Obj.ChildList) (name : string) :
  List.length (Obj.Remove children name)
  = (List.length children - (if Obj.Has children name then 1 else 0))%nat.
Proof.
  induction children as [| [k v] children IH]; [reflexivity |].
  simpl. destruct (k =? name); simpl; [lia |].
  rewrite IH. destruct (Obj.Has children name) eqn:Hhas; [| lia].
  destruct children; [discriminate Hhas | simpl; lia].
Qed.

(** X8.  [Remove] of a name takes one entry away if the object has the
    name and none otherwise, and it does not change what [Has] and [Get]
    answer for another name. *)
Theorem Object_Remove_one_entry (children : Obj.ChildList)
        (name name' : string) (Hother : (name =? name') = false) :
  Obj.GetCount (Obj.Remove children name)
  = (Obj.GetCount children - (if Obj.Has children name then 1 else 0))%nat
  /\ Obj.Has (Obj.Remove children name) name' = Obj.Has children name'
  /\ Obj.Get (Obj.Remove children name) name' = Obj.Get children name'.
Proof.
  split; [apply Obj_Remove_length |].
  induction children as [| [k v] children [IHhas IHget]];
    [split; reflexivity |].
  simpl. destruct (String.eqb_spec k name) as [-> | Hk]; simpl.
  - rewrite Hother. split; reflexivity.
  - rewrite IHhas, IHget. split; reflexivity.
Qed.

Lemma Object_Remove_one_entry_witness :
  ("a" =? "b") = false
  /\ Obj.Get (Obj.Remove [("a", SetNull); ("b", Set_bool true)] "a") "b"
     = Returns (Set_bool true).
Proof.
  split; [reflexivity |].
  destruct (Object_Remove_one_entry
              [("a", SetNull); ("b", Set_bool true)] "a" "b" eq_refl)
    as (_ & _ & ->).
  reflexivity.
Defined.

Lemma Arr_Get_nth (children : Arr.ChildList) (index : nat) :
  Arr.Get children index
  = match nth_error children index with
    | Some n => Returns n
    | None => Throws NotFoundException
    end.
Proof.
  unfold Arr.Get.
  destruct (Nat.ltb_spec index (List.length children)) as [Hlt | Hge];
    [reflexivity |].
  apply nth_error_None in Hge. rewrite Hge. reflexivity.
Qed.

(** X9.  After [Add] of a node to an array, [Get] below the old count
    returns what it returned before, [Get] at the old count returns the
    new node, and [Get] above it throws [NotFoundException]. *)
Theorem Array_Get_after_Add (children : Arr.ChildList) (node : Node)
        (index : nat) :
  Arr.Get (Arr.Add children node) index
  = if (index <? Arr.GetCount children)%nat then Arr.Get children index
    else if (index =? Arr.GetCount children)%nat then Returns node
         else Throws NotFoundException.
Proof.
  unfold Arr.Add, Arr.GetCount, GetCopy. rewrite !Arr_Get_nth.
  destruct (Nat.ltb_spec index (List.length children)) as [Hlt | Hge].
  - rewrite nth_error_app1 by exact Hlt. reflexivity.
  - rewrite nth_error_app2 by exact Hge.
    destruct (Nat.eqb_spec index (List.length children)) as [-> | Hne].
    + rewrite Nat.sub_diag. reflexivity.
    + destruct (index - List.length children)%nat as [| k] eqn:Hk;
        [lia |].
      simpl. destruct k; reflexivity.
Qed.

Lemma erase_length (children : Arr.ChildList) :
  forall index,
    (index < List.length children)%nat ->
    List.length (Arr.erase children index)
    = (List.length children - 1)%nat.
Proof.
  induction children as [| c children IH]; intros index Hlt;
    [simpl in Hlt; lia |].
  destruct index as [| i]; simpl; [lia |].
  simpl in Hlt. rewrite IH by lia. lia.
Qed.

Lemma erase_nth_error (children : Arr.ChildList) :
  forall index j,
    nth_error (Arr.erase children index) j
    = if (index <? List.length children)%nat
      then if (j <? index)%nat then nth_error children j
           else nth_error children (S j)
      else nth_error children j.
Proof.
  induction children as [| c children IH]; intros index j.
  - destruct index; reflexivity.
  - destruct index as [| i].
    + reflexivity.
    + cbn [Arr.erase List.length].
      change (S i <? S (List.length children))%nat
        with (i <? List.length children)%nat.
      destruct j as [| j].
      * cbn [nth_error].
        destruct (i <? List.length children)%nat; reflexivity.
      * cbn [nth_error]. rewrite IH.
        change (S j <? S i)%nat with (j <? i)%nat. reflexivity.
Qed.

(** X10.  [Remove] of an index below the count takes exactly that child
    away: the count goes down by one, the children before the index stay
    where they are and each child after it moves down by one. *)
Theorem Array_Remove_in_range (children : Arr.ChildList) (index : nat)
        (Hindex : (index < Arr.GetCount children)%nat) :
  exists children',
    Arr.Remove children index = Returns children'
    /\ Arr.GetCount children' = (Arr.GetCount children - 1)%nat
    /\ forall j,
        Arr.Get children' j
        = if (j <? index)%nat then Arr.Get children j
          else Arr.Get children (S j).
Proof.
  unfold Arr.GetCount in *. exists (Arr.erase children index).
  unfold Arr.Remove. apply Nat.ltb_lt in Hindex as Hb. rewrite Hb.
  split; [reflexivity |].
  split; [apply erase_length, Hindex |].
  intros j. rewrite !Arr_Get_nth, erase_nth_error, Hb.
  destruct (j <? index)%nat; reflexivity.
Qed.

Lemma Array_Remove_in_range_witness :
  (0 < Arr.GetCount [SetNull; Set_bool true])%nat
  /\ exists children',
      Arr.Remove [SetNull; Set_bool true] 0 = Returns children'
      /\ Arr.GetCount children'
         = (Arr.GetCount [SetNull; Set_bool true] - 1)%nat
      /\ forall j,
          Arr.Get children' j
          = if (j <? 0)%nat then Arr.Get [SetNull; Set_bool true] j
            else Arr.Get [SetNull; Set_bool true] (S j).
Proof.
  split; [simpl; lia |].
  apply (Array_Remove_in_range [SetNull; Set_bool true] 0). simpl. lia.
Defined.

(** ** The writer, in general *)

Lemma writeElements_concat (fi : FormatInterpreter.t) (level : N)
      (children : list Node) :
  WriterLoops.writeElements fi level true children =
  String.concat ("," ++ FormatInterpreter.GetNewline fi)
    (map (element fi level) children).
Proof.
  assert (Hrest : forall its,
             WriterLoops.writeElements fi level false its =
             match its with
             | [] => EmptyString
             | _ :: _ =>
                 ("," ++ FormatInterpreter.GetNewline fi)
                 ++ String.concat ("," ++ FormatInterpreter.GetNewline fi)
                      (map (element fi level) its)
             end).
  { induction its as [| it its IH]; [reflexivity |].
    cbn [WriterLoops.writeElements map String.concat]. rewrite IH.
    unfold element.
    destruct its as [| it' its]; cbn [map];
      repeat rewrite append_assoc; repeat rewrite append_nil_r; reflexivity. }
  destruct children as [| it its]; [reflexivity |].
  cbn [WriterLoops.writeElements map String.concat]. rewrite Hrest.
  unfold element.
  destruct its as [| it' its]; cbn [map];
    repeat rewrite append_assoc; repeat rewrite append_nil_r; reflexivity.
Qed.

(** X11.  [writeArray] writes the children in the order of [children],
    each after its indentation, with a comma and the new line between
    two of them, between the brackets. *)
Theorem writeArray_in_order (fi : FormatInterpreter.t) (level : N)
        (children : list Node) :
  Writer.writeNode fi (Array children) level =
  "[" ++ FormatInterpreter.GetNewline fi
  ++ String.concat ("," ++ FormatInterpreter.GetNewline fi)
       (map (element fi level) children)
  ++ FormatInterpreter.GetNewline fi
  ++ FormatInterpreter.GetIndentation fi level ++ "]".
Proof. rewrite writeNode_Array, writeElements_concat. reflexivity. Qed.

Lemma writeEntries_same (fi fi' : FormatInterpreter.t)
      (its : list (string * Node)) :
  (forall level,
      FormatInterpreter.GetIndentation fi level
      = FormatInterpreter.GetIndentation fi' level) ->
  FormatInterpreter.GetNewline fi = FormatInterpreter.GetNewline fi' ->
  FormatInterpreter.GetSpacing fi = FormatInterpreter.GetSpacing fi' ->
  Forall (fun it => forall level,
              Writer.writeNode fi (snd it) level
              = Writer.writeNode fi' (snd it) level) its ->
  forall level begin,
    WriterLoops.writeEntries fi level begin its
    = WriterLoops.writeEntries fi' level begin its.
Proof.
  intros Hind Hnl Hsp Hits level.
  induction Hits as [| it its Hit _ IH]; intros begin; [reflexivity |].
  cbn [WriterLoops.writeEntries].
  rewrite Hind, Hnl, Hsp, Hit, IH. reflexivity.
Qed.

Lemma writeElements_same (fi fi' : FormatInterpreter.t) (its : list Node) :
  (forall level,
      FormatInterpreter.GetIndentation fi level
      = FormatInterpreter.GetIndentation fi' level) ->
  FormatInterpreter.GetNewline fi = FormatInterpreter.GetNewline fi' ->
  Forall (fun value => forall level,
              Writer.writeNode fi value level
              = Writer.writeNode fi' value level) its ->
  forall level begin,
    WriterLoops.writeElements fi level begin its
    = WriterLoops.writeElements fi' level begin its.
Proof.
  intros Hind Hnl Hits level.
  induction Hits as [| it its Hit _ IH]; intros begin; [reflexivity |].
  cbn [WriterLoops.writeElements].
  rewrite Hind, Hnl, Hit, IH. reflexivity.
Qed.

Lemma writeNode_same (fi fi' : FormatInterpreter.t) :
  (forall level,
      FormatInterpreter.GetIndentation fi level
      = FormatInterpreter.GetIndentation fi' level) ->
  FormatInterpreter.GetNewline fi = FormatInterpreter.GetNewline fi' ->
  FormatInterpreter.GetSpacing fi = FormatInterpreter.GetSpacing fi' ->
  forall n level, Writer.writeNode fi n level = Writer.writeNode fi' n level.
Proof.
  intros Hind Hnl Hsp.
  induction n as [type s | children IH | children IH]
    using Node_children_ind; intros level.
  - reflexivity.
  - rewrite !writeNode_Object.
    rewrite (writeEntries_same fi fi' children Hind Hnl Hsp IH).
    rewrite Hind, Hnl. reflexivity.
  - rewrite !writeNode_Array.
    rewrite (writeElements_same fi fi' children Hind Hnl IH).
    rewrite Hind, Hnl. reflexivity.
Qed.

(** X12.  Without [newline] the text does not depend on [useTabs] and
    [indentSize]: no indentation is written. *)
Theorem Write_without_newline_ignores_indentation
        (spacing useTabs useTabs' : bool) (indentSize indentSize' : N)
        (root : Node) :
  Writer.Write root (mkFormat false spacing useTabs indentSize)
  = Writer.Write root (mkFormat false spacing useTabs' indentSize').
Proof.
  unfold Writer.Write. apply writeNode_same; reflexivity.
Qed.

(** ** White space *)

(** White space is skipped, whatever the state of the tokenizer. *)
Lemma tokenize_blank (ws : string) :
  forall x st,
    Lexical.blank ws = true ->
    Parser.tokenize_from (ws ++ x) st = Parser.tokenize_from x st.
Proof.
  induction ws as [| c r IH]; intros x st H; [reflexivity |].
  unfold Lexical.blank in H. simpl in H.
  apply andb_true_iff in H as [Hc Hr].
  cbn [append]. rewrite tokenize_from_cons, Hc. apply IH, Hr.
Qed.

Lemma blank_append (a b : string) :
  Lexical.blank a = true -> Lexical.blank b = true ->
  Lexical.blank (a ++ b) = true.
Proof.
  unfold Lexical.blank. intros Ha Hb. rewrite all_of_append, Ha, Hb.
  reflexivity.
Qed.

Lemma blank_fill (n : nat) (c : ascii) :
  Parser.IsWhitespace c = true -> Lexical.blank (fill n c) = true.
Proof.
  intros Hc. induction n as [| n IH]; [reflexivity |].
  unfold Lexical.blank in *. simpl. rewrite Hc, IH. reflexivity.
Qed.

(** What a format puts between the tokens is white space. *)
Lemma blank_format (f : Format) :
  Lexical.blank
    (FormatInterpreter.GetNewline (FormatInterpreter.SetFormat f)) = true
  /\ Lexical.blank
       (FormatInterpreter.GetSpacing (FormatInterpreter.SetFormat f)) = true
  /\ forall level,
      Lexical.blank
        (FormatInterpreter.GetIndentation (FormatInterpreter.SetFormat f)
           level) = true.
Proof.
  destruct f as [nl sp tabs size].
  split; [destruct nl, sp; reflexivity |].
  split; [destruct sp; reflexivity |].
  intros level. unfold FormatInterpreter.GetIndentation. simpl.
  destruct nl; [| reflexivity].
  apply blank_fill. destruct tabs; reflexivity.
Qed.

(** ** The tokens of a text in any format *)

Section AnyFormat.

Variable f : Format.

Let fi : FormatInterpreter.t := FormatInterpreter.SetFormat f.

Lemma writeEntries_text_in (level : N) (it : string * Node)
      (its : list (string * Node)) (x : string) :
  WriterLoops.writeEntries fi level true (it :: its) ++ x
  = FormatInterpreter.GetIndentation fi (Writer.next_level level)
    ++ String DQUOTE
         (fst it ++
          String DQUOTE
            (String ":"
               (FormatInterpreter.GetSpacing fi
                ++ Writer.writeNode fi (snd it) (Writer.next_level level)
                ++ WriterLoops.writeEntries fi level false its ++ x))).
Proof.
  cbn [WriterLoops.writeEntries]. unfold str1.
  repeat (first [rewrite append_assoc | progress (cbn [append])]).
  reflexivity.
Qed.

Lemma writeEntries_more_in (level : N) (it : string * Node)
      (its : list (string * Node)) (x : string) :
  WriterLoops.writeEntries fi level false (it :: its) ++ x
  = String ","
      (FormatInterpreter.GetNewline fi
       ++ WriterLoops.writeEntries fi level true (it :: its) ++ x).
Proof.
  cbn [WriterLoops.writeEntries]. unfold str1.
  repeat (first [rewrite append_assoc | progress (cbn [append])]).
  reflexivity.
Qed.

Lemma writeElements_text_in (level : N) (value : Node) (its : list Node)
      (x : string) :
  WriterLoops.writeElements fi level true (value :: its) ++ x
  = FormatInterpreter.GetIndentation fi (Writer.next_level level)
    ++ Writer.writeNode fi value (Writer.next_level level)
    ++ WriterLoops.writeElements fi level false its ++ x.
Proof.
  cbn [WriterLoops.writeElements].
  repeat (first [rewrite append_assoc | progress (cbn [append])]).
  reflexivity.
Qed.

Lemma writeElements_more_in (level : N) (value : Node) (its : list Node)
      (x : string) :
  WriterLoops.writeElements fi level false (value :: its) ++ x
  = String ","
      (FormatInterpreter.GetNewline fi
       ++ WriterLoops.writeElements fi level true (value :: its) ++ x).
Proof.
  cbn [WriterLoops.writeElements].
  repeat (first [rewrite append_assoc | progress (cbn [append])]).
  reflexivity.
Qed.

Lemma tokenizes_in_comma (n : Node) (level : N) (rest : string)
      (tk : list Parser.Token) (dt : list Parser.Datum) (t0 : Parser.Token) :
  tokenizes_in f n ->
  Parser.tokenize_from (Writer.writeNode fi n level ++ String "," rest)
    (Parser.mkTok tk dt t0 EmptyString)
  = Parser.tokenize_from rest
      (Parser.mkTok (tk ++ ReadBack.tokens_of n ++ [Parser.T_SEPARATOR_NODE])
         (dt ++ ReadBack.data_of n) Parser.T_SEPARATOR_NODE EmptyString).
Proof.
  intros H.
  exact (H level EmptyString ","%char Parser.T_SEPARATOR_NODE rest tk dt t0
           eq_refl eq_refl).
Qed.

Lemma tokenize_entries_in (its : list (string * Node)) :
  forall it level ws rest tk dt t0,
    Lexical.blank ws = true ->
    ReadBack.closes NUL (fst it) = true ->
    tokenizes_in f (snd it) ->
    Forall (fun it => ReadBack.closes NUL (fst it) = true
                      /\ tokenizes_in f (snd it)) its ->
    Parser.tokenize_from
      (WriterLoops.writeEntries fi level true (it :: its)
       ++ ws ++ String "}" rest)
      (Parser.mkTok tk dt t0 EmptyString)
    = Parser.tokenize_from rest
        (Parser.mkTok
           (tk ++ ReadBack.entries_tokens true (it :: its)
            ++ [Parser.T_OBJ_END])
           (dt ++ ReadBack.entries_data (it :: its))
           Parser.T_OBJ_END EmptyString).
Proof.
  destruct (blank_format f) as (Hnl & Hsp & Hind).
  induction its as [| it' its IH];
    intros it level ws rest tk dt t0 Hws Hname Hit Hits.
  - rewrite writeEntries_text_in.
    rewrite tokenize_blank by apply Hind.
    rewrite (tokenize_quoted _ _ _ _ _ Hname).
    rewrite (tokenize_structural ":" Parser.T_SEPARATOR_NAME) by reflexivity.
    rewrite tokenize_blank by apply Hsp.
    cbn [WriterLoops.writeEntries append].
    rewrite (Hit _ ws "}"%char Parser.T_OBJ_END) by (reflexivity || exact Hws).
    unfold ReadBack.entries_data.
    cbn [ReadBack.entries_tokens flat_map]. list_norm. reflexivity.
  - inversion Hits as [| ? ? [Hname' Hit'] Hits']; subst.
    rewrite writeEntries_text_in.
    rewrite tokenize_blank by apply Hind.
    rewrite (tokenize_quoted _ _ _ _ _ Hname).
    rewrite (tokenize_structural ":" Parser.T_SEPARATOR_NAME) by reflexivity.
    rewrite tokenize_blank by apply Hsp.
    rewrite writeEntries_more_in.
    rewrite tokenizes_in_comma by exact Hit.
    rewrite tokenize_blank by apply Hnl.
    rewrite (IH it' level ws rest _ _ _ Hws Hname' Hit' Hits').
    unfold ReadBack.entries_data.
    cbn [ReadBack.entries_tokens flat_map]. list_norm. reflexivity.
Qed.

Lemma tokenize_elements_in (its : list Node) :
  forall value level ws rest tk dt t0,
    Lexical.blank ws = true ->
    tokenizes_in f value ->
    Forall (tokenizes_in f) its ->
    Parser.tokenize_from
      (WriterLoops.writeElements fi level true (value :: its)
       ++ ws ++ String "]" rest)
      (Parser.mkTok tk dt t0 EmptyString)
    = Parser.tokenize_from rest
        (Parser.mkTok
           (tk ++ ReadBack.elements_tokens true (value :: its)
            ++ [Parser.T_ARRAY_END])
           (dt ++ ReadBack.elements_data (value :: its))
           Parser.T_ARRAY_END EmptyString).
Proof.
  destruct (blank_format f) as (Hnl & Hsp & Hind).
  induction its as [| value' its IH];
    intros value level ws rest tk dt t0 Hws Hvalue Hits.
  - rewrite writeElements_text_in.
    rewrite tokenize_blank by apply Hind.
    cbn [WriterLoops.writeElements append].
    rewrite (Hvalue _ ws "]"%char Parser.T_ARRAY_END)
      by (reflexivity || exact Hws).
    unfold ReadBack.elements_data.
    cbn [ReadBack.elements_tokens flat_map]. list_norm. reflexivity.
  - inversion Hits as [| ? ? Hvalue' Hits']; subst.
    rewrite writeElements_text_in.
    rewrite tokenize_blank by apply Hind.
    rewrite writeElements_more_in.
    rewrite tokenizes_in_comma by exact Hvalue.
    rewrite tokenize_blank by apply Hnl.
    rewrite (IH value' level ws rest _ _ _ Hws Hvalue' Hits').
    unfold ReadBack.elements_data.
    cbn [ReadBack.elements_tokens flat_map]. list_norm. reflexivity.
Qed.

Lemma writeNode_Object_in (children : list (string * Node)) (level : N)
      (x : string) :
  Writer.writeNode fi (Object children) level ++ x
  = String "{"
      (FormatInterpreter.GetNewline fi
       ++ WriterLoops.writeEntries fi level true children
       ++ (FormatInterpreter.GetNewline fi
           ++ FormatInterpreter.GetIndentation fi level)
       ++ String "}" x).
Proof.
  rewrite writeNode_Object.
  repeat (first [rewrite append_assoc | progress (cbn [append])]).
  reflexivity.
Qed.

Lemma writeNode_Array_in (children : list Node) (level : N) (x : string) :
  Writer.writeNode fi (Array children) level ++ x
  = String "["
      (FormatInterpreter.GetNewline fi
       ++ WriterLoops.writeElements fi level true children
       ++ (FormatInterpreter.GetNewline fi
           ++ FormatInterpreter.GetIndentation fi level)
       ++ String "]" x).
Proof.
  rewrite writeNode_Array.
  repeat (first [rewrite append_assoc | progress (cbn [append])]).
  reflexivity.
Qed.

Lemma tokenize_Object_in (children : list (string * Node)) :
  Forall (fun it => ReadBack.closes NUL (fst it) = true
                    /\ tokenizes_in f (snd it)) children ->
  forall level rest tk dt t0,
    Parser.tokenize_from
      (Writer.writeNode fi (Object children) level ++ rest)
      (Parser.mkTok tk dt t0 EmptyString)
    = Parser.tokenize_from rest
        (Parser.mkTok (tk ++ ReadBack.tokens_of (Object children))
           (dt ++ ReadBack.data_of (Object children))
           Parser.T_OBJ_END EmptyString).
Proof.
  destruct (blank_format f) as (Hnl & Hsp & Hind).
  intros Hits level rest tk dt t0.
  rewrite writeNode_Object_in, tokens_of_Object.
  rewrite (tokenize_structural "{" Parser.T_OBJ_BEGIN) by reflexivity.
  rewrite tokenize_blank by apply Hnl.
  assert (Hws : Lexical.blank
                  (FormatInterpreter.GetNewline fi
                   ++ FormatInterpreter.GetIndentation fi level) = true)
    by (apply blank_append; [apply Hnl | apply Hind]).
  destruct children as [| it its].
  - cbn [WriterLoops.writeEntries append].
    rewrite tokenize_blank by exact Hws.
    rewrite (tokenize_structural "}" Parser.T_OBJ_END) by reflexivity.
    cbn [ReadBack.entries_tokens ReadBack.data_of flat_map].
    list_norm. reflexivity.
  - inversion Hits as [| ? ? [Hname Hit] Hits']; subst.
    rewrite (tokenize_entries_in its it level _ rest _ _ _
               Hws Hname Hit Hits').
    list_norm. reflexivity.
Qed.

Lemma tokenize_Array_in (children : list Node) :
  Forall (tokenizes_in f) children ->
  forall level rest tk dt t0,
    Parser.tokenize_from
      (Writer.writeNode fi (Array children) level ++ rest)
      (Parser.mkTok tk dt t0 EmptyString)
    = Parser.tokenize_from rest
        (Parser.mkTok (tk ++ ReadBack.tokens_of (Array children))
           (dt ++ ReadBack.data_of (Array children))
           Parser.T_ARRAY_END EmptyString).
Proof.
  destruct (blank_format f) as (Hnl & Hsp & Hind).
  intros Hits level rest tk dt t0.
  rewrite writeNode_Array_in, tokens_of_Array.
  rewrite (tokenize_structural "[" Parser.T_ARRAY_BEGIN) by reflexivity.
  rewrite tokenize_blank by apply Hnl.
  assert (Hws : Lexical.blank
                  (FormatInterpreter.GetNewline fi
                   ++ FormatInterpreter.GetIndentation fi level) = true)
    by (apply blank_append; [apply Hnl | apply Hind]).
  destruct children as [| value its].
  - cbn [WriterLoops.writeElements append].
    rewrite tokenize_blank by exact Hws.
    rewrite (tokenize_structural "]" Parser.T_ARRAY_END) by reflexivity.
    cbn [ReadBack.elements_tokens ReadBack.data_of flat_map].
    list_norm. reflexivity.
  - inversion Hits as [| ? ? Hvalue Hits']; subst.
    rewrite (tokenize_elements_in its value level _ rest _ _ _
               Hws Hvalue Hits').
    list_norm. reflexivity.
Qed.

Lemma readable_tokenizes_in (n : Node) :
  ReadBack.readable n = true -> tokenizes_in f n.
Proof.
  induction n as [type s | children IH | children IH]
    using Node_children_ind; intros Hn.
  - intros level ws c t rest tk dt t0 Hws Hc.
    pose proof (closer_structural c t Hc) as Hst.
    destruct type; try discriminate Hn.
    + cbn [ReadBack.readable] in Hn.
      cbn [Writer.writeNode Writer.writeValue IsNull IsString ValueType_eqb].
      rewrite (EscapeString_copied s Hn).
      unfold str1. cbn [append]. rewrite append_assoc. cbn [append].
      rewrite tokenize_quoted
        by (apply closes_copied; [reflexivity | exact Hn]).
      rewrite tokenize_blank by exact Hws.
      rewrite (tokenize_structural c t) by exact Hst.
      cbn [ReadBack.tokens_of ReadBack.data_of]. list_norm. reflexivity.
    + cbn [ReadBack.readable] in Hn.
      apply andb_true_iff in Hn as [Hne Hnum].
      apply negb_true_iff in Hne.
      cbn [Writer.writeNode Writer.writeValue IsNull IsString ValueType_eqb].
      rewrite (tokenize_digits s EmptyString)
        by (assumption || apply isEmpty_append_r).
      cbn [append]. rewrite tokenize_blank by exact Hws.
      rewrite (tokenize_structural_number c t) by assumption.
      cbn [ReadBack.tokens_of ReadBack.data_of]. list_norm. reflexivity.
  - pose proof (readable_Object_children _ _ IH Hn) as Hits.
    intros level ws c t rest tk dt t0 Hws Hc.
    rewrite (tokenize_Object_in children Hits).
    rewrite tokenize_blank by exact Hws.
    rewrite (tokenize_structural c t) by (apply closer_structural, Hc).
    list_norm. reflexivity.
  - pose proof (readable_Array_children _ _ IH Hn) as Hits.
    intros level ws c t rest tk dt t0 Hws Hc.
    rewrite (tokenize_Array_in children Hits).
    rewrite tokenize_blank by exact Hws.
    rewrite (tokenize_structural c t) by (apply closer_structural, Hc).
    list_norm. reflexivity.
Qed.

(** The queues after [tokenize] of the text of a readable tree in the
    format [f]. *)
Lemma tokenize_readable_in (n : Node) :
  ReadBack.readable n = true ->
  Parser.tokens (Parser.tokenize (Writer.Write n f)) = ReadBack.tokens_of n
  /\ Parser.data (Parser.tokenize (Writer.Write n f)) = ReadBack.data_of n.
Proof.
  intros Hn. rewrite tokenize_is_tokenize_from.
  unfold Writer.Write, Parser.tokenize_init.
  change (FormatInterpreter.SetFormat f) with fi.
  destruct n as [type s | children | children].
  - destruct type; try discriminate Hn; cbn [ReadBack.readable] in Hn.
    + cbn [Writer.writeNode Writer.writeValue IsNull IsString ValueType_eqb].
      rewrite (EscapeString_copied s Hn). unfold str1. cbn [append].
      rewrite tokenize_quoted
        by (apply closes_copied; [reflexivity | exact Hn]).
      rewrite tokenize_from_nil. split; reflexivity.
    + apply andb_true_iff in Hn as [Hne Hnum].
      apply negb_true_iff in Hne.
      cbn [Writer.writeNode Writer.writeValue IsNull IsString ValueType_eqb].
      rewrite tokenize_digits_last by (reflexivity || assumption).
      split; reflexivity.
  - rewrite <- (append_nil_r (Writer.writeNode _ _ _)).
    rewrite tokenize_Object_in, tokenize_from_nil; [split; reflexivity |].
    apply (readable_Object_children _ _
             (proj2 (Forall_forall _ _)
                    (fun it _ => readable_tokenizes_in (snd it))) Hn).
  - rewrite <- (append_nil_r (Writer.writeNode _ _ _)).
    rewrite tokenize_Array_in, tokenize_from_nil; [split; reflexivity |].
    apply (readable_Array_children _ _
             (proj2 (Forall_forall _ _)
                    (fun value _ => readable_tokenizes_in value)) Hn).
Qed.

End AnyFormat.

(** ** Parsing what was written *)

(** From the tokens and data of a readable tree and a root of its kind,
    [assemble] returns [true]; the children of the tree are added to
    those of the root, and a value root is set to the tree. *)
Lemma assemble_merge (root n : Node) :
  ReadBack.readable n = true ->
  same_kind root n = true ->
  Parser.assemble (ReadBack.tokens_of n)
    (Parser.mkAsm [] EmptyString (ReadBack.data_of n) root)
  = Parser.Success
      (Parser.mkAsm (ReadBack.final_stack n) EmptyString [] (merge root n)).
Proof.
  intros Hn Hkind.
  destruct n as [type s | children | children];
    destruct root as [type0 s0 | children0 | children0];
    try discriminate Hkind.
  - cbn [ReadBack.tokens_of ReadBack.data_of ReadBack.final_stack merge].
    rewrite assemble_value by reflexivity.
    unfold Parser.case_value. asm_simpl.
    rewrite (value_of_readable _ _ Hn). reflexivity.
  - pose proof (readable_Object_children _ _
                  (proj2 (Forall_forall _ _)
                         (fun it _ => readable_attaches (snd it))) Hn)
      as Hits.
    assert (Hatt : Forall (fun it => ReadBack.attaches (snd it)) children)
      by (eapply Forall_impl; [| exact Hits]; intros it [_ H]; exact H).
    rewrite tokens_of_Object.
    change (ReadBack.data_of (Object children))
      with (ReadBack.entries_data children).
    change (Parser.assemble (Parser.T_OBJ_BEGIN :: ?x) ?st)
      with (Parser.andThen (Parser.case_begin T_OBJECT st)
              (Parser.assemble x)).
    cbn [ReadBack.final_stack merge].
    change (Parser.case_begin T_OBJECT
              (Parser.mkAsm [] EmptyString (ReadBack.entries_data children)
                 (Object children0)))
      with (Parser.Success
              (ReadBack.top_holds false EmptyString [] (Object children0)
                 (Object []) EmptyString (ReadBack.entries_data children))).
    cbn [Parser.andThen].
    rewrite <- (app_nil_r (ReadBack.entries_data children)).
    rewrite (assemble_entries children true children0) by exact Hatt.
    reflexivity.
  - pose proof (readable_Array_children _ _
                  (proj2 (Forall_forall _ _)
                         (fun value _ => readable_attaches value)) Hn)
      as Hatt.
    rewrite tokens_of_Array.
    change (ReadBack.data_of (Array children))
      with (ReadBack.elements_data children).
    change (Parser.assemble (Parser.T_ARRAY_BEGIN :: ?x) ?st)
      with (Parser.andThen (Parser.case_begin T_ARRAY st)
              (Parser.assemble x)).
    cbn [ReadBack.final_stack merge].
    change (Parser.case_begin T_ARRAY
              (Parser.mkAsm [] EmptyString (ReadBack.elements_data children)
                 (Array children0)))
      with (Parser.Success
              (ReadBack.top_holds false EmptyString [] (Array children0)
                 (Array []) EmptyString (ReadBack.elements_data children))).
    cbn [Parser.andThen].
    rewrite <- (app_nil_r (ReadBack.elements_data children)).
    rewrite (assemble_elements children true children0) by exact Hatt.
    reflexivity.
Qed.

Lemma Parse_Write_merge (f : Format) (root n : Node) :
  ReadBack.readable n = true ->
  same_kind root n = true ->
  Parser.Parse root (Writer.Write n f)
  = Parser.Success
      (Parser.mkAsm (ReadBack.final_stack n) EmptyString [] (merge root n)).
Proof.
  intros Hn Hkind. unfold Parser.Parse. cbv zeta.
  destruct (tokenize_readable_in f n Hn) as [-> ->].
  apply assemble_merge; assumption.
Qed.

(** X13.  The round trip of a readable tree holds in every format, the
    indented ones included: [Parse] of the text of the tree in any format
    into a fresh root returns [true], the root is then the tree, and it
    is written in any format as the tree is. *)
Theorem readable_round_trip_any_format (f f' : Format) (n : Node)
        (Hn : ReadBack.readable n = true) :
  exists st,
    Parser.Parse (ReadBack.fresh n) (Writer.Write n f) = Parser.Success st
    /\ Parser.root st = n
    /\ Parser.adata st = []
    /\ Writer.Write (Parser.root st) f' = Writer.Write n f'.
Proof.
  exists (Parser.mkAsm (ReadBack.final_stack n) EmptyString [] n).
  split; [| repeat apply conj; reflexivity].
  rewrite (Parse_Write_merge f (ReadBack.fresh n) n Hn)
    by (destruct n; reflexivity).
  destruct n; simpl; try reflexivity.
Qed.

Lemma readable_round_trip_any_format_witness :
  ReadBack.readable tree_sample = true
  /\ exists st,
      Parser.Parse (ReadBack.fresh tree_sample)
        (Writer.Write tree_sample StandardFormat) = Parser.Success st
      /\ Parser.root st = tree_sample
      /\ Parser.adata st = []
      /\ Writer.Write (Parser.root st) NoFormat
         = Writer.Write tree_sample NoFormat.
Proof.
  split; [reflexivity |].
  apply (readable_round_trip_any_format StandardFormat NoFormat tree_sample).
  reflexivity.
Defined.

(** X14.  [Parse] does not clear the root: the entries of a readable
    object text are added after the entries that an object root holds,
    the elements of a readable array text after the elements that an
    array root holds, in the order of the text. *)
Theorem Parse_adds_to_the_root (f : Format)
        (held : list (string * Node)) (entries : list (string * Node))
        (held' elements : list Node)
        (Hentries : ReadBack.readable (Object entries) = true)
        (Helements : ReadBack.readable (Array elements) = true) :
  Parser.Parse (Object held) (Writer.Write (Object entries) f)
  = Parser.Success
      (Parser.mkAsm [] EmptyString [] (Object (held ++ entries)))
  /\ Parser.Parse (Array held') (Writer.Write (Array elements) f)
     = Parser.Success
         (Parser.mkAsm [] EmptyString [] (Array (held' ++ elements))).
Proof.
  split.
  - apply (Parse_Write_merge f (Object held) (Object entries) Hentries).
    reflexivity.
  - apply (Parse_Write_merge f (Array held') (Array elements) Helements).
    reflexivity.
Qed.

Lemma Parse_adds_to_the_root_witness :
  ReadBack.readable (Object [("b", Value VT_NUMBER "2")]) = true
  /\ ReadBack.readable (Array [Value VT_STRING "x"]) = true
  /\ Parser.Parse (Object [("a", SetNull)])
       (Writer.Write (Object [("b", Value VT_NUMBER "2")]) StandardFormat)
     = Parser.Success
         (Parser.mkAsm [] EmptyString []
            (Object [("a", SetNull); ("b", Value VT_NUMBER "2")])).
Proof.
  split; [reflexivity |]. split; [reflexivity |].
  apply (Parse_adds_to_the_root StandardFormat
           [("a", SetNull)] [("b", Value VT_NUMBER "2")]
           [] [Value VT_STRING "x"] eq_refl eq_refl).
Defined.

(** ** Literals and white space at the end of the text *)

Lemma literal_char (c : ascii) :
  Lexical.literal c = true ->
  Parser.IsWhitespace c = false
  /\ forall cur st,
      Parser.switch_char c cur st
      = (Parser.set_buffer (Parser.valueBuffer st ++ str1 c) st, false, cur).
Proof.
  destruct c as [[] [] [] [] [] [] [] []]; intros H; vm_compute in H;
    try discriminate H; split; try reflexivity; intros; reflexivity.
Qed.

(** The characters of a literal before another character go to
    [valueBuffer]. *)
Lemma tokenize_literal (s : string) :
  forall b rest tk dt t0,
    Parser.all_of Lexical.literal s = true ->
    isEmpty rest = false ->
    Parser.tokenize_from (s ++ rest) (Parser.mkTok tk dt t0 b)
    = Parser.tokenize_from rest (Parser.mkTok tk dt t0 (b ++ s)).
Proof.
  induction s as [| c r IH]; intros b rest tk dt t0 Hs Hrest.
  - rewrite append_nil_r. reflexivity.
  - simpl in Hs. apply andb_true_iff in Hs as [Hc Hr].
    destruct (literal_char c Hc) as [Hws Hsw].
    cbn [append]. rewrite tokenize_from_cons, Hws.
    unfold Parser.tokenize_body. rewrite Hsw.
    rewrite at_last_more by (destruct r; [exact Hrest | reflexivity]).
    tok_simpl. rewrite IH by assumption.
    unfold str1. rewrite append_assoc. reflexivity.
Qed.

(** The characters of a literal at the end of the text are classified at
    the last of them. *)
Lemma tokenize_literal_last (s : string) :
  forall b tk dt t0,
    isEmpty s = false ->
    Parser.all_of Lexical.literal s = true ->
    Parser.tokenize_from s (Parser.mkTok tk dt t0 b)
    = Parser.save_buffer (Parser.mkTok tk dt t0 (b ++ s)).
Proof.
  induction s as [| c r IH]; intros b tk dt t0 Hne Hs; [discriminate |].
  simpl in Hs. apply andb_true_iff in Hs as [Hc Hr].
  destruct (literal_char c Hc) as [Hws Hsw].
  rewrite tokenize_from_cons, Hws.
  unfold Parser.tokenize_body. rewrite Hsw.
  destruct r as [| c' r'].
  - unfold str1. tok_simpl. rewrite isEmpty_append_r. reflexivity.
  - rewrite at_last_more by reflexivity. tok_simpl.
    rewrite IH by (reflexivity || assumption).
    unfold str1. rewrite append_assoc. reflexivity.
Qed.

(** X15.  [Parse] of a text of white space only, the empty text
    included, returns [true] and leaves the root as it is, whatever the
    root. *)
Theorem Parse_blank_text (root : Node) (json : string)
        (Hblank : Lexical.blank json = true) :
  Parser.Parse root json
  = Parser.Success (Parser.mkAsm [] EmptyString [] root).
Proof.
  unfold Parser.Parse. cbv zeta. rewrite tokenize_is_tokenize_from.
  rewrite <- (append_nil_r json).
  rewrite tokenize_blank by exact Hblank. reflexivity.
Qed.

Lemma Parse_blank_text_witness :
  Lexical.blank (String SPACE (str1 LF)) = true
  /\ Parser.Parse (Array [SetNull]) (String SPACE (str1 LF))
     = Parser.Success (Parser.mkAsm [] EmptyString [] (Array [SetNull])).
Proof.
  split; [reflexivity |].
  apply (Parse_blank_text (Array [SetNull]) (String SPACE (str1 LF))).
  reflexivity.
Defined.

(** X16.  A literal that is followed by white space up to the end of the
    text is lost: the buffer is classified only at a structural
    character, a quote, a slash or the very last character of the text,
    so [Parse] returns [true] and leaves the root as it is, whatever the
    literal and the root. *)
Theorem Parse_literal_before_trailing_blank (root : Node) (s ws : string)
        (Hs : Parser.all_of Lexical.literal s = true)
        (Hws : Lexical.blank ws = true)
        (Hsome : isEmpty ws = false) :
  Parser.tokens (Parser.tokenize (s ++ ws)) = []
  /\ Parser.data (Parser.tokenize (s ++ ws)) = []
  /\ Parser.Parse root (s ++ ws)
     = Parser.Success (Parser.mkAsm [] EmptyString [] root).
Proof.
  assert (Htok : Parser.tokenize (s ++ ws)
                 = Parser.mkTok [] [] Parser.T_UNKNOWN s).
  { rewrite tokenize_is_tokenize_from. unfold Parser.tokenize_init.
    rewrite tokenize_literal by assumption.
    rewrite <- (append_nil_r ws).
    rewrite tokenize_blank by exact Hws. reflexivity. }
  unfold Parser.Parse. cbv zeta. rewrite Htok.
  repeat apply conj; reflexivity.
Qed.

Lemma Parse_literal_before_trailing_blank_witness :
  Parser.all_of Lexical.literal "123" = true
  /\ Lexical.blank (str1 LF) = true
  /\ isEmpty (str1 LF) = false
  /\ Parser.Parse SetNull ("123" ++ str1 LF)
     = Parser.Success (Parser.mkAsm [] EmptyString [] SetNull).
Proof.
  split; [reflexivity |]. split; [reflexivity |]. split; [reflexivity |].
  apply (Parse_literal_before_trailing_blank SetNull "123" (str1 LF)
           eq_refl eq_refl eq_refl).
Defined.

(** X17.  A literal that makes up the whole text, is none of the words
    null, true and false in any case, and has a character other than
    digits, dots and minus signs is an unknown token: [Parse] returns
    [false] with the literal in the message and leaves the root as it is,
    whatever the kind of the root. *)
Theorem Parse_unknown_literal (root : Node) (s : string)
        (Hsome : isEmpty s = false)
        (Hs : Parser.all_of Lexical.literal s = true)
        (Hword : Lexical.keyword s = false)
        (Hnum : Parser.all_of Parser.IsNumber s = false) :
  Parser.Parse root s
  = Parser.Failure ("Unknown token: " ++ s)
      (Parser.mkAsm [] EmptyString [] root).
Proof.
  unfold Parser.Parse. cbv zeta. rewrite tokenize_is_tokenize_from.
  unfold Parser.tokenize_init.
  rewrite tokenize_literal_last by assumption.
  unfold Parser.save_buffer. tok_simpl.
  rewrite interpretValue_number_only, Hnum. reflexivity.
Qed.

Lemma Parse_unknown_literal_witness :
  isEmpty "abc" = false
  /\ Parser.all_of Lexical.literal "abc" = true
  /\ Lexical.keyword "abc" = false
  /\ Parser.all_of Parser.IsNumber "abc" = false
  /\ Parser.Parse (Object []) "abc"
     = Parser.Failure ("Unknown token: " ++ "abc")
         (Parser.mkAsm [] EmptyString [] (Object [])).
Proof.
  split; [reflexivity |]. split; [reflexivity |]. split; [reflexivity |].
  split; [reflexivity |].
  apply (Parse_unknown_literal (Object []) "abc"
           eq_refl eq_refl eq_refl eq_refl).
Defined.

(** ** Strings without a closing quote *)




(** ** What tokenize has pushed stays *)

Lemma switch_char_appends (c : ascii) (cur : string) (st : Parser.Tok) :
  Parser.tokens (fst (fst (Parser.switch_char c cur st))) = Parser.tokens st
  /\ exists dt',
      Parser.data (fst (fst (Parser.switch_char c cur st)))
      = (Parser.data st ++ dt')%list.
Proof.
  unfold Parser.switch_char.
  repeat match goal with
         | |- context [if ?b then _ else _] => destruct b
         end;
    try (split; [reflexivity | exists []; symmetry; apply app_nil_r]).
  destruct (Parser.readString cur) as [[str |] cur']; simpl.
  - split; [reflexivity | exists [(VT_STRING, str)]; reflexivity].
  - split; [reflexivity | exists []; symmetry; apply app_nil_r].
Qed.

Lemma save_buffer_appends (st : Parser.Tok) :
  exists tk' dt',
    Parser.tokens (Parser.save_buffer st) = (Parser.tokens st ++ tk')%list
    /\ Parser.data (Parser.save_buffer st) = (Parser.data st ++ dt')%list.
Proof.
  unfold Parser.save_buffer.
  destruct (Parser.interpretValue (Parser.valueBuffer st)) as [d |];
    do 2 eexists; split; reflexivity.
Qed.

Lemma tokenize_body_appends (c : ascii) (cur : string) (st : Parser.Tok) :
  exists tk' dt',
    Parser.tokens (fst (Parser.tokenize_body c cur st))
    = (Parser.tokens st ++ tk')%list
    /\ Parser.data (fst (Parser.tokenize_body c cur st))
       = (Parser.data st ++ dt')%list.
Proof.
  unfold Parser.tokenize_body.
  destruct (switch_char_appends c cur st) as [Htk [dt1 Hdt]].
  destruct (Parser.switch_char c cur st) as [[st1 saveBuffer] cur1].
  cbn [fst snd] in *.
  assert (H2 : exists tk' dt',
             Parser.tokens
               (if (saveBuffer || Parser.at_last cur1)
                   && negb (isEmpty (Parser.valueBuffer st1))
                then Parser.save_buffer st1 else st1)
             = (Parser.tokens st ++ tk')%list
             /\ Parser.data
                  (if (saveBuffer || Parser.at_last cur1)
                      && negb (isEmpty (Parser.valueBuffer st1))
                   then Parser.save_buffer st1 else st1)
                = (Parser.data st ++ dt')%list).
  { destruct ((saveBuffer || Parser.at_last cur1)
              && negb (isEmpty (Parser.valueBuffer st1))).
    - destruct (save_buffer_appends st1) as (tk2 & dt2 & H2tk & H2dt).
      exists tk2, (dt1 ++ dt2)%list. rewrite H2tk, H2dt, Htk, Hdt.
      rewrite app_assoc. split; reflexivity.
    - exists [], dt1. rewrite Htk, Hdt, app_nil_r. split; reflexivity. }
  destruct H2 as (tk2 & dt2 & H2tk & H2dt).
  destruct saveBuffer; cbn [fst].
  - unfold Parser.push_token. cbn [Parser.tokens Parser.data].
    rewrite H2tk, H2dt, <- app_assoc. do 2 eexists. split; reflexivity.
  - exists tk2, dt2. split; assumption.
Qed.

Lemma tokenize_loop_appends (n : nat) :
  forall cur st,
    exists tk' dt',
      Parser.tokens (Parser.tokenize_loop n cur st)
      = (Parser.tokens st ++ tk')%list
      /\ Parser.data (Parser.tokenize_loop n cur st)
         = (Parser.data st ++ dt')%list.
Proof.
  induction n as [| n IH]; intros cur st.
  - exists [], []. rewrite !app_nil_r. split; reflexivity.
  - destruct cur as [| c r]; cbn [Parser.tokenize_loop].
    + exists [], []. rewrite !app_nil_r. split; reflexivity.
    + destruct (Parser.IsWhitespace c); [apply IH |].
      destruct (tokenize_body_appends c (String c r) st)
        as (tk1 & dt1 & H1tk & H1dt).
      destruct (Parser.tokenize_body c (String c r) st) as [st' cur'].
      cbn [fst] in *.
      destruct (IH (Parser.advance cur') st') as (tk2 & dt2 & H2tk & H2dt).
      exists (tk1 ++ tk2)%list, (dt1 ++ dt2)%list.
      rewrite H2tk, H2dt, H1tk, H1dt, <- !app_assoc. split; reflexivity.
Qed.

(** [tokenize] only adds to the two queues. *)
Lemma tokenize_from_appends (cur : string) (st : Parser.Tok) :
  exists tk' dt',
    Parser.tokens (Parser.tokenize_from cur st)
    = (Parser.tokens st ++ tk')%list
    /\ Parser.data (Parser.tokenize_from cur st)
       = (Parser.data st ++ dt')%list.
Proof. apply tokenize_loop_appends. Qed.

(** ** Texts that cannot be parsed *)

Lemma switch_char_slash (cur : string) (st : Parser.Tok) :
  exists cur', Parser.switch_char "/" cur st = (st, true, cur').
Proof.
  unfold Parser.switch_char.
  change (("/" =? "{")%char) with false.
  change (("/" =? "}")%char) with false.
  change (("/" =? "[")%char) with false.
  change (("/" =? "]")%char) with false.
  change (("/" =? ",")%char) with false.
  change (("/" =? ":")%char) with false.
  change (("/" =? DQUOTE)%char) with false.
  change (("/" =? "/")%char) with true. cbv iota zeta.
  destruct (Parser.peek cur =? "*")%char; [eexists; reflexivity |].
  destruct (Parser.peek cur =? "/")%char; eexists; reflexivity.
Qed.

(** X19.  A text whose first character after white space is a slash,
    that is every text that begins with a comment, is never parsed:
    [tokenize] pushes the initial value [T_UNKNOWN] of [token] after the
    comment, so [Parse] does not return [true], and the root stays as it
    is. *)
Theorem Parse_text_beginning_with_slash (root : Node) (ws rest : string)
        (Hws : Lexical.blank ws = true) :
  Parser.succeeded (Parser.Parse root (ws ++ String "/" rest)) = false
  /\ forall root',
      Parser.root_after (Parser.Parse root (ws ++ String "/" rest))
      = Some root' ->
      root' = root.
Proof.
  unfold Parser.Parse. cbv zeta. rewrite tokenize_is_tokenize_from.
  rewrite tokenize_blank by exact Hws.
  rewrite tokenize_from_cons.
  change (Parser.IsWhitespace "/") with false. cbv iota.
  unfold Parser.tokenize_body, Parser.tokenize_init.
  destruct (switch_char_slash (String "/" rest)
              (Parser.mkTok [] [] Parser.T_UNKNOWN EmptyString))
    as [cur' ->].
  tok_simpl.
  destruct (tokenize_from_appends (Parser.advance cur')
              (Parser.mkTok [Parser.T_UNKNOWN] [] Parser.T_UNKNOWN
                 EmptyString))
    as (tk' & dt' & -> & ->).
  cbn [Parser.tokens Parser.data app].
  change (Parser.assemble (Parser.T_UNKNOWN :: tk') ?st)
    with (Parser.case_unknown st).
  unfold Parser.case_unknown. cbn [Parser.adata].
  destruct dt' as [| [ty text] dt'].
  - split; [reflexivity | discriminate].
  - split; [reflexivity |]. intros root' H. injection H as <-. reflexivity.
Qed.

Lemma Parse_text_beginning_with_slash_witness :
  Lexical.blank EmptyString = true
  /\ Parser.succeeded
       (Parser.Parse (Object []) (EmptyString ++ String "/" "* c */{}"))
     = false.
Proof.
  split; [reflexivity |].
  apply (Parse_text_beginning_with_slash (Object []) EmptyString "* c */{}").
  reflexivity.
Defined.

(** X20.  A closing brace or bracket as the first character after white
    space ends the parse: [Parse] returns [false] with the message of a
    close without an opening and leaves the root as it is. *)
Theorem Parse_close_without_open (root : Node) (ws rest : string)
        (c : ascii) (t : Parser.Token)
        (Hws : Lexical.blank ws = true)
        (Hc : ReadBack.closer c = Some t)
        (Hclose : Parser.Token_eqb t Parser.T_SEPARATOR_NODE = false) :
  Parser.succeeded (Parser.Parse root (ws ++ String c rest)) = false
  /\ Parser.GetError (Parser.Parse root (ws ++ String c rest))
     = "Found end of object or array without beginning"
  /\ Parser.root_after (Parser.Parse root (ws ++ String c rest))
     = Some root.
Proof.
  unfold Parser.Parse. cbv zeta. rewrite tokenize_is_tokenize_from.
  rewrite tokenize_blank by exact Hws.
  unfold Parser.tokenize_init.
  rewrite (tokenize_structural c t) by (apply closer_structural, Hc).
  destruct (tokenize_from_appends rest
              (Parser.mkTok ([] ++ [t]) [] t EmptyString))
    as (tk' & dt' & -> & ->).
  cbn [Parser.tokens Parser.data app].
  unfold ReadBack.closer in Hc.
  repeat match type of Hc with
         | (if ?b then _ else _) = _ => destruct b
         end;
    try discriminate Hc; injection Hc as <-; try discriminate Hclose;
    repeat apply conj; reflexivity.
Qed.

Lemma Parse_close_without_open_witness :
  Lexical.blank (str1 SPACE) = true
  /\ ReadBack.closer "}" = Some Parser.T_OBJ_END
  /\ Parser.Token_eqb Parser.T_OBJ_END Parser.T_SEPARATOR_NODE = false
  /\ Parser.GetError (Parser.Parse (Object []) (str1 SPACE ++ String "}" "{"))
     = "Found end of object or array without beginning".
Proof.
  split; [reflexivity |]. split; [reflexivity |]. split; [reflexivity |].
  apply (Parse_close_without_open (Object []) (str1 SPACE) "{" "}"
           Parser.T_OBJ_END eq_refl eq_refl eq_refl).
Defined.

(** X21.  A number where an object expects a name is refused: for an
    object root, an opening brace, a number and a colon, [Parse] returns
    [false] with the message that a name has to be a string, whatever
    follows, and leaves the root as it is. *)
Theorem Parse_number_as_name (held : list (string * Node))
        (s rest : string)
        (Hsome : isEmpty s = false)
        (Hnum : Parser.all_of Parser.IsNumber s = true) :
  Parser.succeeded
    (Parser.Parse (Object held) (String "{" (s ++ String ":" rest))) = false
  /\ Parser.GetError
       (Parser.Parse (Object held) (String "{" (s ++ String ":" rest)))
     = "A name has to be a string"
  /\ Parser.root_after
       (Parser.Parse (Object held) (String "{" (s ++ String ":" rest)))
     = Some (Object held).
Proof.
  unfold Parser.Parse. cbv zeta. rewrite tokenize_is_tokenize_from.
  unfold Parser.tokenize_init.
  rewrite (tokenize_structural "{" Parser.T_OBJ_BEGIN) by reflexivity.
  rewrite (tokenize_digits s EmptyString) by (assumption || reflexivity).
  cbn [append].
  rewrite (tokenize_structural_number ":" Parser.T_SEPARATOR_NAME)
    by (assumption || reflexivity).
  match goal with
  | |- context [Parser.tokenize_from rest ?st] =>
      destruct (tokenize_from_appends rest st) as (tk' & dt' & -> & ->)
  end.
  cbn [Parser.tokens Parser.data app].
  repeat apply conj; reflexivity.
Qed.

Lemma Parse_number_as_name_witness :
  isEmpty "1" = false
  /\ Parser.all_of Parser.IsNumber "1" = true
  /\ Parser.GetError
       (Parser.Parse (Object []) (String "{" ("1" ++ String ":" "2}")))
     = "A name has to be a string".
Proof.
  split; [reflexivity |]. split; [reflexivity |].
  apply (Parse_number_as_name [] "1" "2}" eq_refl eq_refl).
Defined.

(** X22.  The wrong closing character is refused: an object root whose
    text closes with a bracket right after the opening brace, and an
    array root whose text closes with a brace right after the opening
    bracket, make [Parse] return [false] with the message of the
    mismatch, whatever follows, the root left as it is. *)
Theorem Parse_mismatched_close (held : list (string * Node))
        (held' : list Node) (rest : string) :
  (Parser.GetError (Parser.Parse (Object held) (String "{" (String "]" rest)))
   = "Mismatched end and beginning of array"
   /\ Parser.root_after
        (Parser.Parse (Object held) (String "{" (String "]" rest)))
      = Some (Object held))
  /\ (Parser.GetError
        (Parser.Parse (Array held') (String "[" (String "}" rest)))
      = "Mismatched end and beginning of object"
      /\ Parser.root_after
           (Parser.Parse (Array held') (String "[" (String "}" rest)))
         = Some (Array held')).
Proof.
  unfold Parser.Parse. cbv zeta. rewrite !tokenize_is_tokenize_from.
  unfold Parser.tokenize_init.
  rewrite (tokenize_structural "{" Parser.T_OBJ_BEGIN) by reflexivity.
  rewrite (tokenize_structural "]" Parser.T_ARRAY_END) by reflexivity.
  rewrite (tokenize_structural "[" Parser.T_ARRAY_BEGIN) by reflexivity.
  rewrite (tokenize_structural "}" Parser.T_OBJ_END) by reflexivity.
  repeat match goal with
         | |- context [Parser.tokenize_from rest ?st] =>
             destruct (tokenize_from_appends rest st)
               as (?tk & ?dt & -> & ->)
         end.
  cbn [Parser.tokens Parser.data app].
  repeat apply conj; reflexivity.
Qed.

(** ** What a parse does to the root *)

Lemma extends_refl (n : Node) : extends n n.
Proof.
  destruct n; simpl; try exact I; exists []; symmetry; apply app_nil_r.
Qed.

Lemma extends_trans (a b c : Node) :
  extends a b -> extends b c -> extends a c.
Proof.
  destruct a, b, c; simpl; try tauto;
    intros [m1 ->] [m2 ->]; exists (m1 ++ m2)%list;
    symmetry; apply app_assoc.
Qed.

Lemma add_to_top_extends (st st' : Parser.Asm) (nm : string) (node : Node) :
  Parser.add_to_top st nm node = Some st' ->
  extends (Parser.root st) (Parser.root st').
Proof.
  unfold Parser.add_to_top, Parser.update_top.
  destruct st as [stack name data root]. cbn [Parser.nodeStack Parser.root].
  destruct stack as [| [fn p] below]; [discriminate |].
  destruct p as [| own]; cbn [Parser.deref Parser.root].
  - destruct root as [type s | children | children]; intros H;
      try discriminate H; injection H as <-; cbn [Parser.root extends];
      eexists; reflexivity.
  - destruct own; intros H; try discriminate H; injection H as <-;
      apply extends_refl.
Qed.

Lemma case_begin_extends (kind : Type_) (st : Parser.Asm) :
  outcome_extends (Parser.root st) (Parser.case_begin kind st).
Proof.
  unfold Parser.case_begin.
  destruct (Parser.nodeStack st); destruct kind;
    repeat match goal with
           | |- context [if ?b then _ else _] => destruct b
           end;
    apply extends_refl.
Qed.

Lemma case_end_extends (token : Parser.Token) (st : Parser.Asm) :
  outcome_extends (Parser.root st) (Parser.case_end token st).
Proof.
  unfold Parser.case_end.
  destruct (Parser.nodeStack st) as [| [nm p] below] eqn:Hstack;
    [apply extends_refl |].
  repeat match goal with
         | |- context [if ?b then _ else _] => destruct b
         end;
    try apply extends_refl.
  destruct (Parser.add_to_top _ nm _) as [st2 |] eqn:Hadd;
    [| exact (extends_refl (Parser.root st))].
  apply add_to_top_extends in Hadd. exact Hadd.
Qed.

Lemma case_name_extends (st : Parser.Asm) :
  outcome_extends (Parser.root st) (Parser.case_name st).
Proof.
  unfold Parser.case_name.
  destruct (Parser.adata st) as [| [ty text] rest]; [exact I |].
  destruct (negb (ValueType_eqb ty VT_STRING)); apply extends_refl.
Qed.

Lemma case_value_extends (st : Parser.Asm) :
  outcome_extends (Parser.root st) (Parser.case_value st).
Proof.
  unfold Parser.case_value.
  destruct (Parser.nodeStack st) as [| frame below] eqn:Hstack.
  - destruct (IsValue (Parser.root st)) eqn:Hv; cbn [negb];
      [| apply extends_refl].
    destruct (Parser.adata st) as [| d rest]; [exact I |].
    cbn [outcome_extends Parser.set_name Parser.set_stack Parser.set_data
         Parser.set_root Parser.root].
    destruct (Parser.root st); try discriminate Hv.
    unfold Parser.value_of, Set_string, Set_typed.
    destruct (ValueType_eqb (fst d) VT_STRING); exact I.
  - destruct (Parser.adata st) as [| d rest]; [exact I |].
    cbn [outcome_extends].
    destruct (Parser.add_to_top _ _ _) as [st2 |] eqn:Hadd.
    + apply add_to_top_extends in Hadd. exact Hadd.
    + apply extends_refl.
Qed.

Lemma case_unknown_extends (st : Parser.Asm) :
  outcome_extends (Parser.root st) (Parser.case_unknown st).
Proof.
  unfold Parser.case_unknown.
  destruct (Parser.adata st) as [| [ty text] rest];
    [exact I | apply extends_refl].
Qed.

Lemma iteration_extends (tokens rest : list Parser.Token)
      (st : Parser.Asm) (o : Parser.Outcome) :
  Parser.iteration tokens st = Some (o, rest) ->
  outcome_extends (Parser.root st) o.
Proof.
  destruct tokens as [| token tl]; [discriminate |].
  simpl. intros H. injection H as H.
  destruct token;
    try (injection H as <- _;
         first [ apply case_unknown_extends | apply case_begin_extends
               | apply case_end_extends | apply extends_refl ]).
  destruct tl as [| [] tl']; injection H as <- _;
    first [apply case_name_extends | apply case_value_extends].
Qed.

Lemma assemble_extends (n : nat) :
  forall tokens st,
    (List.length tokens <= n)%nat ->
    outcome_extends (Parser.root st) (Parser.assemble tokens st).
Proof.
  induction n as [| n IH]; intros tokens st Hlen.
  - destruct tokens; [apply extends_refl | simpl in Hlen; lia].
  - rewrite assemble_iteration.
    destruct (Parser.iteration tokens st) as [[o rest] |] eqn:Hit;
      [| apply extends_refl].
    pose proof (iteration_shorter _ _ _ _ Hit) as Hsh.
    pose proof (iteration_extends _ _ _ _ Hit) as Hext.
    destruct o as [st1 | e st1 |]; cbn [Parser.andThen]; try exact Hext.
    specialize (IH rest st1 ltac:(lia)).
    destruct (Parser.assemble rest st1) as [st2 | e st2 |];
      cbn [outcome_extends] in *; try exact I;
      eapply extends_trans; eassumption.
Qed.

Lemma extends_GetType (a b : Node) : extends a b -> GetType b = GetType a.
Proof. destruct a, b; simpl; tauto. Qed.

(** X23.  Whatever the text and whether [Parse] returns [true] or
    [false], the root keeps its class, and a container root keeps the
    children it had, in their order, before anything that the parse
    added. *)
Theorem Parse_extends_the_root (root root' : Node) (json : string)
        (Hafter : Parser.root_after (Parser.Parse root json) = Some root') :
  extends root root' /\ GetType root' = GetType root.
Proof.
  assert (H : extends root root').
  { unfold Parser.Parse in Hafter. cbv zeta in Hafter.
    pose proof (assemble_extends _
                  (Parser.tokens (Parser.tokenize json))
                  (Parser.mkAsm [] EmptyString
                     (Parser.data (Parser.tokenize json)) root)
                  (le_n _)) as Hext.
    destruct (Parser.assemble _ _) as [st | e st |];
      try discriminate Hafter; injection Hafter as <-; exact Hext. }
  split; [exact H | apply extends_GetType, H].
Qed.

Lemma Parse_extends_the_root_witness :
  Parser.root_after (Parser.Parse (Array [SetNull]) "[1,{]")
  = Some (Array [SetNull; Value VT_NUMBER "1"])
  /\ extends (Array [SetNull]) (Array [SetNull; Value VT_NUMBER "1"]).
Proof.
  split; [vm_compute; reflexivity |].
  apply (Parse_extends_the_root (Array [SetNull])
           (Array [SetNull; Value VT_NUMBER "1"]) "[1,{]").
  vm_compute. reflexivity.
Defined.

(** ** Unknown tokens *)

Lemma iteration_keeps_unknown (tokens rest : list Parser.Token)
      (st st1 : Parser.Asm) :
  Parser.iteration tokens st = Some (Parser.Success st1, rest) ->
  In Parser.T_UNKNOWN tokens -> In Parser.T_UNKNOWN rest.
Proof.
  destruct tokens as [| token tl]; [discriminate |].
  simpl. intros H Hin. injection H as H.
  destruct token;
    try (injection H as _ <-;
         destruct Hin as [Hin | Hin]; [discriminate Hin | exact Hin]).
  - unfold Parser.case_unknown in H.
    destruct (Parser.adata st) as [| [ty text] d]; discriminate H.
  - destruct Hin as [Hin | Hin]; [discriminate Hin |].
    destruct tl as [| [] tl']; injection H as _ <-; try exact Hin.
    destruct Hin as [Hin | Hin]; [discriminate Hin | exact Hin].
Qed.

Lemma assemble_unknown_fails (n : nat) :
  forall tokens st,
    (List.length tokens <= n)%nat ->
    In Parser.T_UNKNOWN tokens ->
    Parser.succeeded (Parser.assemble tokens st) = false.
Proof.
  induction n as [| n IH]; intros tokens st Hlen Hin.
  - destruct tokens; [contradiction | simpl in Hlen; lia].
  - rewrite assemble_iteration.
    destruct (Parser.iteration tokens st) as [[o rest] |] eqn:Hit.
    + pose proof (iteration_shorter _ _ _ _ Hit) as Hsh.
      destruct o as [st1 | e st1 |]; cbn [Parser.andThen];
        try reflexivity.
      apply IH; [lia |].
      eapply iteration_keeps_unknown; eassumption.
    + destruct tokens; [contradiction | discriminate Hit].
Qed.

(** X24.  One unknown token is enough: if [tokenize] has pushed
    [T_UNKNOWN] anywhere in the queue, [Parse] does not return [true]. *)
Theorem Parse_fails_on_unknown_token (root : Node) (json : string)
        (Hunknown : In Parser.T_UNKNOWN
                      (Parser.tokens (Parser.tokenize json))) :
  Parser.succeeded (Parser.Parse root json) = false.
Proof.
  unfold Parser.Parse. cbv zeta.
  eapply assemble_unknown_fails; [apply le_n | exact Hunknown].
Qed.

Lemma Parse_fails_on_unknown_token_witness :
  In Parser.T_UNKNOWN (Parser.tokens (Parser.tokenize "[1,x]"))
  /\ Parser.succeeded (Parser.Parse (Array []) "[1,x]") = false.
Proof.
  split; [vm_compute; tauto |].
  apply (Parse_fails_on_unknown_token (Array []) "[1,x]").
  vm_compute. tauto.
Defined.

(** ** String values, written and read *)

Lemma closes_table_char (c1 x : ascii) (t : string) :
  (x =? BACKSLASH)%char = false ->
  ReadBack.closes c1 (String BACKSLASH (String x t)) = ReadBack.closes x t.
Proof.
  intros Hx. cbn [ReadBack.closes].
  change ((BACKSLASH =? DQUOTE)%char) with false.
  change ((BACKSLASH =? BACKSLASH)%char) with true.
  rewrite andb_false_r. reflexivity.
Qed.

(** Whether [readString] stops at the quote that the writer puts after
    the escaped text of a string. *)
Lemma closes_EscapeString (s : string) :
  forall c1,
    ReadBack.closes c1 (EscapeString s)
    = if isEmpty s then negb (c1 =? BACKSLASH)%char
      else negb (Lexical.ends_in_backslash s).
Proof.
  induction s as [| c r IH]; intros c1; [reflexivity |].
  cbn [isEmpty].
  assert (Hends : forall b : bool,
             (c =? BACKSLASH)%char = b ->
             b = false \/ isEmpty r = false ->
             negb (Lexical.ends_in_backslash (String c r))
             = if isEmpty r then negb b
               else negb (Lexical.ends_in_backslash r)).
  { intros b Hb Hor. cbn [Lexical.ends_in_backslash].
    destruct r; [rewrite Hb; reflexivity | reflexivity]. }
  by_escaped_cases c.
  - rewrite EscapeString_copied_char by assumption.
    destruct (copied_plain c H) as [Hb Hq].
    cbn [ReadBack.closes]. rewrite Hq, andb_false_r. cbn [negb andb].
    rewrite IH, Hb. rewrite (Hends false Hb (or_introl eq_refl)).
    reflexivity.
  - destruct (EscapeString_table_chars r) as (-> & _).
    cbn [ReadBack.closes].
    change ((BACKSLASH =? DQUOTE)%char) with false.
    change ((BACKSLASH =? BACKSLASH)%char) with true.
    rewrite andb_false_r. cbn [negb andb].
    rewrite IH. cbn [Lexical.ends_in_backslash].
    destruct r; reflexivity.
  - destruct (EscapeString_table_chars r) as (_ & -> & _).
    rewrite closes_table_char, IH by reflexivity.
    rewrite (Hends false eq_refl (or_introl eq_refl)). reflexivity.
  - destruct (EscapeString_table_chars r) as (_ & _ & -> & _).
    rewrite closes_table_char, IH by reflexivity.
    rewrite (Hends false eq_refl (or_introl eq_refl)). reflexivity.
  - destruct (EscapeString_table_chars r) as (_ & _ & _ & -> & _).
    rewrite closes_table_char, IH by reflexivity.
    rewrite (Hends false eq_refl (or_introl eq_refl)). reflexivity.
  - destruct (EscapeString_table_chars r) as (_ & _ & _ & _ & -> & _).
    rewrite closes_table_char, IH by reflexivity.
    rewrite (Hends false eq_refl (or_introl eq_refl)). reflexivity.
  - destruct (EscapeString_table_chars r) as (_ & _ & _ & _ & _ & -> & _).
    rewrite closes_table_char, IH by reflexivity.
    rewrite (Hends false eq_refl (or_introl eq_refl)). reflexivity.
  - destruct (EscapeString_table_chars r)
      as (_ & _ & _ & _ & _ & _ & -> & _).
    rewrite closes_table_char, IH by reflexivity.
    rewrite (Hends false eq_refl (or_introl eq_refl)). reflexivity.
  - destruct (EscapeString_table_chars r)
      as (_ & _ & _ & _ & _ & _ & _ & ->).
    rewrite closes_table_char, IH by reflexivity.
    rewrite (Hends false eq_refl (or_introl eq_refl)). reflexivity.
Qed.

(** X25.  A string value that does not end in a backslash, written in
    any format and parsed into a value root, comes back as a string
    value: [Parse] returns [true] and the text of the root is what
    [UnescapeString] makes of the escaped text. *)
Theorem Parse_written_string (f : Format) (type : ValueType)
        (valueStr s : string)
        (Hs : Lexical.ends_in_backslash s = false) :
  Parser.Parse (Value type valueStr) (Writer.Write (Value VT_STRING s) f)
  = Parser.Success
      (Parser.mkAsm [(EmptyString, Parser.to_root)] EmptyString []
         (Value VT_STRING (UnescapeString (EscapeString s)))).
Proof.
  assert (Hcl : ReadBack.closes NUL (EscapeString s) = true).
  { rewrite closes_EscapeString, Hs. destruct s; reflexivity. }
  assert (Htok : Parser.tokenize (Writer.Write (Value VT_STRING s) f)
                 = Parser.mkTok [Parser.T_VALUE]
                     [(VT_STRING, EscapeString s)]
                     Parser.T_VALUE EmptyString).
  { rewrite tokenize_is_tokenize_from.
    unfold Writer.Write, Parser.tokenize_init.
    cbn [Writer.writeNode Writer.writeValue IsNull IsString ValueType_eqb].
    unfold str1. cbn [append].
    rewrite (tokenize_quoted _ _ _ _ _ Hcl).
    rewrite tokenize_from_nil. reflexivity. }
  unfold Parser.Parse. cbv zeta. rewrite Htok. reflexivity.
Qed.

Lemma Parse_written_string_witness :
  Lexical.ends_in_backslash "a/b" = false
  /\ Parser.Parse SetNull (Writer.Write (Value VT_STRING "a/b") NoFormat)
     = Parser.Success
         (Parser.mkAsm [(EmptyString, Parser.to_root)] EmptyString []
            (Value VT_STRING (UnescapeString (EscapeString "a/b")))).
Proof.
  split; [reflexivity |].
  apply (Parse_written_string NoFormat VT_NULL EmptyString "a/b").
  reflexivity.
Defined.

(** ** A root of another kind *)

(** X2.  The text of a readable tree, in any format, is refused by a
    root of another class: [Parse] returns [false] at the first token
    with the message that names the class the text asks for, and the
    root stays as it is. *)
Theorem Parse_into_root_of_other_kind (f : Format) (root n : Node)
        (Hn : ReadBack.readable n = true)
        (Hkind : same_kind root n = false) :
  Parser.Parse root (Writer.Write n f)
  = Parser.Failure
      (match n with
       | Object _ => "The given root node is not an object"
       | Array _ => "The given root node is not an array"
       | Value _ _ => "The given root node is not a value"
       end)
      (Parser.mkAsm [] EmptyString (ReadBack.data_of n) root).
Proof.
  unfold Parser.Parse. cbv zeta.
  destruct (tokenize_readable_in f n Hn) as [-> ->].
  destruct n as [type s | children | children];
    destruct root as [type0 s0 | children0 | children0];
    try discriminate Hkind; reflexivity.
Qed.

Lemma Parse_into_root_of_other_kind_witness :
  ReadBack.readable tree_sample = true
  /\ same_kind (Array []) tree_sample = false
  /\ Parser.GetError
       (Parser.Parse (Array []) (Writer.Write tree_sample StandardFormat))
     = "The given root node is not an object".
Proof.
  split; [reflexivity |]. split; [reflexivity |].
  rewrite (Parse_into_root_of_other_kind StandardFormat (Array [])
             tree_sample eq_refl eq_refl).
  reflexivity.
Defined.
